(** * Name-order correction of watchlist names (package [prepare])

    A shallow embedding of [ReorderSDNName] from
    [internal/prepare/pipeline_reorder.go] together with the parts of the Go
    standard library it calls: [regexp] (the pattern [surnamePrecedes] and
    [FindString]), [strings] ([EqualFold], [TrimPrefix], [TrimSuffix],
    [TrimSpace]), [unicode], [unicode/utf8] and [fmt.Sprintf].

    A Go [string] is an immutable sequence of bytes; it is modelled as a list
    of 8-bit characters.  A [rune] is a Unicode code point, modelled as a
    binary natural number. *)

From Stdlib Require Import NArith ZArith List String Ascii Bool Arith Lia Permutation.
Import ListNotations.

Open Scope string_scope.
Open Scope list_scope.
Open Scope N_scope.

(** ** Go strings, bytes and runes *)

Definition byte := ascii.
Definition rune := N.
Definition gostring := list byte.

(** String literals of the source are written as Rocq string literals. *)
Definition str (s : string) : list byte := list_ascii_of_string s.
Coercion str : string >-> list.

(** [uint8] value of a byte. *)
Definition u8 (c : byte) : N := N_of_ascii c.

(** [len(s)] *)
Definition len (s : gostring) : nat := List.length s.

(** [s[i]].  Go panics on an index out of range; here such an index gives
    the byte [0].  The module [checked] below has the same code with every
    index checked, and lemma [ReorderSDNName_ok] shows that no call of
    [ReorderSDNName] reaches an index or a slice out of range. *)
Definition at_ (s : gostring) (i : nat) : N := u8 (nth i s zero).

(** [s[i:j]] for [i <= j <= len(s)]; outside these bounds Go panics, see
    [checked.slice]. *)
Definition slice (s : gostring) (i j : nat) : gostring := firstn (j - i) (skipn i s).

(** [s == t] on strings. *)
Fixpoint eqs (s t : gostring) : bool :=
  match s, t with
  | [], [] => true
  | c :: s', d :: t' => Ascii.eqb c d && eqs s' t'
  | _, _ => false
  end.

(** ** Package [unicode/utf8] *)

Module utf8.

Definition RuneError : rune := 0xFFFD.
Definition RuneSelf : N := 0x80.
Definition UTFMax : nat := 4.

Definition maskx : N := 0x3F.
Definition mask2 : N := 0x1F.
Definition mask3 : N := 0x0F.
Definition mask4 : N := 0x07.
Definition locb : N := 0x80.
Definition hicb : N := 0xBF.

(** Codes of the table [first]: the low three bits give the length of the
    sequence, the high four bits an index into [acceptRanges]. *)
Definition xx : N := 0xF1.
Definition as_ : N := 0xF0.
Definition s1 : N := 0x02.
Definition s2 : N := 0x13.
Definition s3 : N := 0x03.
Definition s4 : N := 0x23.
Definition s5 : N := 0x34.
Definition s6 : N := 0x04.
Definition s7 : N := 0x44.

(** The 256-entry table [first], by ranges of the first byte. *)
Definition first (b : N) : N :=
  if b <? 0x80 then as_
  else if b <? 0xC2 then xx
  else if b <? 0xE0 then s1
  else if b =? 0xE0 then s2
  else if b <? 0xED then s3
  else if b =? 0xED then s4
  else if b <? 0xF0 then s3
  else if b =? 0xF0 then s5
  else if b <? 0xF4 then s6
  else if b =? 0xF4 then s7
  else xx.

(** [acceptRanges]: the bounds [lo], [hi] of the second byte. *)
Definition acceptRanges (i : N) : N * N :=
  match i with
  | 0 => (locb, hicb)
  | 1 => (0xA0, hicb)
  | 2 => (locb, 0x9F)
  | 3 => (0x90, hicb)
  | 4 => (locb, 0x8F)
  | _ => (0, 0)
  end.

(** [DecodeRuneInString(s)]: the first rune of [s] and its width in bytes;
    [(RuneError, 0)] on the empty string and [(RuneError, 1)] on an invalid
    encoding. *)
Definition DecodeRuneInString (s : gostring) : rune * nat :=
  let n := len s in
  if (n <? 1)%nat then (RuneError, 0%nat) else
  let s0 := at_ s 0 in
  let x := first s0 in
  if as_ <=? x then
    (* the mask built from the low bit of x: set for xx, clear for as *)
    (if N.odd x then RuneError else s0, 1%nat)
  else
  let sz := N.to_nat (N.land x 7) in
  let accept := acceptRanges (N.shiftr x 4) in
  if (n <? sz)%nat then (RuneError, 1%nat) else
  let s1 := at_ s 1 in
  if (s1 <? fst accept) || (snd accept <? s1) then (RuneError, 1%nat) else
  if (sz <=? 2)%nat then
    (N.lor (N.shiftl (N.land s0 mask2) 6) (N.land s1 maskx), 2%nat)
  else
  let s2 := at_ s 2 in
  if (s2 <? locb) || (hicb <? s2) then (RuneError, 1%nat) else
  if (sz <=? 3)%nat then
    (N.lor (N.lor (N.shiftl (N.land s0 mask3) 12) (N.shiftl (N.land s1 maskx) 6))
           (N.land s2 maskx), 3%nat)
  else
  let s3 := at_ s 3 in
  if (s3 <? locb) || (hicb <? s3) then (RuneError, 1%nat) else
  (N.lor (N.lor (N.lor (N.shiftl (N.land s0 mask4) 18) (N.shiftl (N.land s1 maskx) 12))
                (N.shiftl (N.land s2 maskx) 6))
         (N.land s3 maskx), 4%nat).

(** [RuneStart(b)]: [b] is not a continuation byte. *)
Definition RuneStart (b : N) : bool := negb (N.land b 0xC0 =? 0x80).

(** The loop [for start--; start >= lim; start-- { if RuneStart(s[start]) {
    break } }] of [DecodeLastRuneInString].  The index [start] can reach
    [-1]; the loop is written over [p = start + 1], a natural number. *)
Fixpoint scanBack (s : gostring) (lim p : nat) : nat :=
  match p with
  | O => O
  | S q => if (lim <? p)%nat
           then if RuneStart (at_ s q) then p else scanBack s lim q
           else p
  end.

(** [DecodeLastRuneInString(s)]: the last rune of [s] and its width. *)
Definition DecodeLastRuneInString (s : gostring) : rune * nat :=
  let end_ := len s in
  if (end_ =? 0)%nat then (RuneError, 0%nat) else
  let start := (end_ - 1)%nat in
  let r := at_ s start in
  if r <? RuneSelf then (r, 1%nat) else
  let lim := (end_ - UTFMax)%nat in          (* max(end - UTFMax, 0) *)
  let p := scanBack s lim start in           (* p = start + 1 after the loop *)
  let start := pred p in                     (* if start < 0 { start = 0 } *)
  let '(r, size) := DecodeRuneInString (slice s start end_) in
  if negb (start + size =? end_)%nat then (RuneError, 1%nat) else (r, size).

(** [[]rune(s)], the runes a [range] loop over [s] yields.  Every step
    consumes at least one byte, so [len(s)] steps are enough. *)
Fixpoint runes_loop (fuel : nat) (s : gostring) : list rune :=
  match fuel, s with
  | S n, _ :: _ =>
      let '(r, size) := DecodeRuneInString s in r :: runes_loop n (skipn size s)
  | _, _ => []
  end.

Definition runes (s : gostring) : list rune := runes_loop (len s) s.

End utf8.

(** ** Package [unicode] *)

Module unicode.

Definition MaxLatin1 : rune := 0xFF.

(** The range table [White_Space]. *)
Definition White_Space : list (rune * rune) :=
  [ (0x0009, 0x000d); (0x0020, 0x0020); (0x0085, 0x0085); (0x00a0, 0x00a0);
    (0x1680, 0x1680); (0x2000, 0x200a); (0x2028, 0x2029); (0x202f, 0x202f);
    (0x205f, 0x205f); (0x3000, 0x3000) ].

Definition inRanges (tab : list (rune * rune)) (r : rune) : bool :=
  existsb (fun lh => (fst lh <=? r) && (r <=? snd lh)) tab.

(** [IsSpace(r)] *)
Definition IsSpace (r : rune) : bool :=
  if r <=? MaxLatin1 then
    (r =? 0x09) || (r =? 0x0A) || (r =? 0x0B) || (r =? 0x0C) || (r =? 0x0D)
    || (r =? 0x20) || (r =? 0x85) || (r =? 0xA0)
  else inRanges White_Space r.

(** The table [asciiFold]: the next rune of the case orbit of an ASCII rune. *)
Definition asciiFold (r : rune) : rune :=
  if r =? 0x6B then 0x212A                         (* 'k' -> KELVIN SIGN *)
  else if r =? 0x73 then 0x017F                    (* 's' -> LONG S *)
  else if (0x41 <=? r) && (r <=? 0x5A) then r + 0x20
  else if (0x61 <=? r) && (r <=? 0x7A) then r - 0x20
  else r.

(** [SimpleFold(r)] on the orbits of the ASCII runes: [asciiFold] and the two
    rows of [caseOrbit] that lead back into ASCII.  [strings.EqualFold] below
    is called with an ASCII operand and starts every walk at the smaller,
    ASCII rune of a pair, so no other row of [caseOrbit] is consulted (lemma
    [SimpleFold_orbit]); on the runes outside these orbits the definition
    returns its argument. *)
Definition SimpleFold (r : rune) : rune :=
  if r <? 0x80 then asciiFold r
  else if r =? 0x017F then 0x53
  else if r =? 0x212A then 0x4B
  else r.

End unicode.

(** ** Package [strings] *)

Module strings.

(** [HasPrefix(s, prefix)] *)
Definition HasPrefix (s prefix : gostring) : bool :=
  (len prefix <=? len s)%nat && eqs (slice s 0 (len prefix)) prefix.

(** [HasSuffix(s, suffix)] *)
Definition HasSuffix (s suffix : gostring) : bool :=
  (len suffix <=? len s)%nat && eqs (slice s (len s - len suffix) (len s)) suffix.

(** [TrimPrefix(s, prefix)] *)
Definition TrimPrefix (s prefix : gostring) : gostring :=
  if HasPrefix s prefix then slice s (len prefix) (len s) else s.

(** [TrimSuffix(s, suffix)] *)
Definition TrimSuffix (s suffix : gostring) : gostring :=
  if HasSuffix s suffix then slice s 0 (len s - len suffix) else s.

(** The table [asciiSpace]. *)
Definition asciiSpace (c : N) : bool :=
  (c =? 0x09) || (c =? 0x0A) || (c =? 0x0B) || (c =? 0x0C) || (c =? 0x0D) || (c =? 0x20).

(** [indexFunc(s, f, truth)]: the byte index of the first rune [r] with
    [f(r) == truth]; [None] is Go's [-1].  The loop is [for i, r := range s],
    which advances by the width of each rune. *)
Fixpoint indexFunc_loop (fuel : nat) (f : rune -> bool) (truth : bool)
    (i : nat) (s : gostring) : option nat :=
  match fuel, s with
  | S n, _ :: _ =>
      let '(r, size) := utf8.DecodeRuneInString s in
      if Bool.eqb (f r) truth then Some i
      else indexFunc_loop n f truth (i + size) (skipn size s)
  | _, _ => None
  end.

Definition indexFunc (s : gostring) (f : rune -> bool) (truth : bool) : option nat :=
  indexFunc_loop (len s) f truth 0 s.

(** [lastIndexFunc(s, f, truth)]: the loop
    [for i := len(s); i > 0; { r, size := DecodeLastRuneInString(s[0:i]);
    i -= size; if f(r) == truth { return i } }].  [i] decreases by at least
    one in each round, so [len(s)] rounds are enough. *)
Fixpoint lastIndexFunc_loop (fuel : nat) (s : gostring) (f : rune -> bool)
    (truth : bool) (i : nat) : option nat :=
  match fuel with
  | O => None
  | S n =>
      if (0 <? i)%nat then
        let '(r, size) := utf8.DecodeLastRuneInString (slice s 0 i) in
        let i := (i - size)%nat in
        if Bool.eqb (f r) truth then Some i
        else lastIndexFunc_loop n s f truth i
      else None
  end.

Definition lastIndexFunc (s : gostring) (f : rune -> bool) (truth : bool) : option nat :=
  lastIndexFunc_loop (len s) s f truth (len s).

(** [TrimLeftFunc(s, f)] *)
Definition TrimLeftFunc (s : gostring) (f : rune -> bool) : gostring :=
  match indexFunc s f false with
  | None => ""
  | Some i => slice s i (len s)
  end.

(** [TrimRightFunc(s, f)] *)
Definition TrimRightFunc (s : gostring) (f : rune -> bool) : gostring :=
  match lastIndexFunc s f false with
  | Some i =>
      if utf8.RuneSelf <=? at_ s i then
        let '(_, wid) := utf8.DecodeRuneInString (slice s i (len s)) in
        slice s 0 (i + wid)
      else slice s 0 (i + 1)
  | None => slice s 0 0                      (* i == -1, i++ *)
  end.

(** [TrimFunc(s, f)] *)
Definition TrimFunc (s : gostring) (f : rune -> bool) : gostring :=
  TrimRightFunc (TrimLeftFunc s f) f.

(** Second loop of [TrimSpace], over [s = s[start:]]: looks for the last
    ASCII non-space byte, from the end. *)
Fixpoint TrimSpace_stop (s : gostring) (stop : nat) : gostring :=
  match stop with
  | O => slice s 0 0
  | S k =>
      let c := at_ s k in
      if utf8.RuneSelf <=? c then TrimRightFunc (slice s 0 stop) unicode.IsSpace
      else if asciiSpace c then TrimSpace_stop s k
      else slice s 0 stop
  end.

(** First loop of [TrimSpace]: looks for the first ASCII non-space byte.
    The argument is [s[start:]]. *)
Fixpoint TrimSpace_start (s : gostring) : gostring :=
  match s with
  | [] => TrimSpace_stop s (len s)
  | c :: s' =>
      if utf8.RuneSelf <=? u8 c then TrimFunc s unicode.IsSpace
      else if asciiSpace (u8 c) then TrimSpace_start s'
      else TrimSpace_stop s (len s)
  end.

(** [TrimSpace(s)] *)
Definition TrimSpace (s : gostring) : gostring := TrimSpace_start s.

(** The walk [r := SimpleFold(sr); for r != sr && r < tr { r = SimpleFold(r) }]
    of [EqualFold].  An orbit has at most four members. *)
Fixpoint foldWalk (fuel : nat) (sr tr r : rune) : rune :=
  match fuel with
  | O => r
  | S n => if negb (r =? sr) && (r <? tr)
           then foldWalk n sr tr (unicode.SimpleFold r) else r
  end.

(** One round of either loop of [EqualFold] on the runes [sr] and [tr]:
    [true] for [continue], [false] for [return false]. *)
Definition foldStep (sr tr : rune) : bool :=
  if tr =? sr then true else
  let '(sr, tr) := if tr <? sr then (tr, sr) else (sr, tr) in
  if tr <? utf8.RuneSelf then
    (0x41 <=? sr) && (sr <=? 0x5A) && (tr =? sr + 0x61 - 0x41)
  else
    let r := foldWalk 4 sr tr (unicode.SimpleFold sr) in
    r =? tr.

(** The loop after the label [hasUnicode]: [for _, sr := range s]. *)
Fixpoint EqualFold_unicode (fuel : nat) (s t : gostring) : bool :=
  match fuel, s with
  | S n, _ :: _ =>
      let '(sr, size) := utf8.DecodeRuneInString s in
      match t with
      | [] => false
      | c :: t' =>
          let '(tr, t) :=
            if u8 c <? utf8.RuneSelf then (u8 c, t')
            else let '(r, size) := utf8.DecodeRuneInString t in (r, skipn size t) in
          if foldStep sr tr then EqualFold_unicode n (skipn size s) t else false
      end
  | _, _ => (len t =? 0)%nat
  end.

(** [EqualFold(s, t)]: the ASCII fast path byte by byte, and the jump to
    [hasUnicode] at the first byte that is not ASCII. *)
Fixpoint EqualFold (s t : gostring) : bool :=
  match s, t with
  | c :: s', d :: t' =>
      let sr := u8 c in
      let tr := u8 d in
      if utf8.RuneSelf <=? N.lor sr tr then EqualFold_unicode (len s) s t
      else if tr =? sr then EqualFold s' t'
      else
        let '(sr, tr) := if tr <? sr then (tr, sr) else (sr, tr) in
        if (0x41 <=? sr) && (sr <=? 0x5A) && (tr =? sr + 0x61 - 0x41)
        then EqualFold s' t' else false
  | _, _ => (len s =? len t)%nat
  end.

End strings.

(** ** Package [regexp]

    Syntax trees carry the operators of [regexp/syntax] that the pattern of
    this package parses to.  Matching is the backtracking semantics of Go's
    default (leftmost-first) mode: [run re s] lists, in order of preference,
    what is left of [s] after each way of matching [re] at its start.

    Go matches runes.  The pattern below names ASCII characters only, a byte
    of a multi-byte or invalid sequence is at least [0x80] and decodes to a
    rune that is not ASCII, and every ASCII byte starts a rune of its own: on
    such a pattern matching bytes and matching runes agree. *)

Module regexp.

Inductive Regexp : Type :=
| OpLiteral (c : byte)                       (* a single character *)
| OpCharClass (ranges : list (N * N))        (* [lo-hi ...] *)
| OpEndText                                  (* $ without the flag m *)
| OpQuest (sub : Regexp)                     (* x?, greedy *)
| OpPlus (sub : Regexp)                      (* x+ and x{1,}, greedy *)
| OpCapture (sub : Regexp)                   (* (x) *)
| OpConcat (sub1 sub2 : Regexp).             (* xy *)

Definition inClass (ranges : list (N * N)) (c : N) : bool :=
  existsb (fun lh => (fst lh <=? c) && (c <=? snd lh)) ranges.

(** [x+]: one match of [x], then as many more as possible before giving
    back.  [n] bounds the number of repetitions. *)
Fixpoint plus (step : gostring -> list gostring) (n : nat) (s : gostring)
    : list gostring :=
  match n with
  | O => []
  | S n' => flat_map (fun s' => plus step n' s' ++ [s']) (step s)
  end.

Fixpoint run (fuel : nat) (re : Regexp) (s : gostring) : list gostring :=
  match re with
  | OpLiteral c =>
      match s with
      | d :: s' => if Ascii.eqb c d then [s'] else []
      | [] => []
      end
  | OpCharClass ranges =>
      match s with
      | d :: s' => if inClass ranges (u8 d) then [s'] else []
      | [] => []
      end
  | OpEndText => match s with [] => [[]] | _ :: _ => [] end
  | OpQuest sub => run fuel sub s ++ [s]
  | OpPlus sub => plus (run fuel sub) fuel s
  | OpCapture sub => run fuel sub s
  | OpConcat sub1 sub2 => flat_map (run fuel sub2) (run fuel sub1 s)
  end.

(** The leftmost match: the preferred match at the first position of the
    text that has one. *)
Fixpoint find (fuel : nat) (re : Regexp) (s : gostring) : option gostring :=
  match run fuel re s with
  | rest :: _ => Some (slice s 0 (len s - len rest))
  | [] => match s with
          | [] => None
          | _ :: s' => find fuel re s'
          end
  end.

(** [re.FindString(s)]: the text of the leftmost match, [""] when there is
    none.  A repetition that consumes input repeats at most [len(s)] times. *)
Definition FindString (re : Regexp) (s : gostring) : gostring :=
  match find (S (len s)) re s with
  | Some v => v
  | None => ""
  end.

(** *** Reading a pattern

    [Compile] reads the part of the syntax that this package uses: literal
    characters, escaped punctuation, the class [\s], bracket classes made of
    single characters, ranges and these escapes, groups, the operators [?],
    [+] and [{1,}] (which Go simplifies to [+]), and [$].  [None] is the
    error of a malformed pattern; a pattern outside this part of the syntax
    is refused as well. *)

Definition perl_s : list (N * N) := [ (0x09, 0x0A); (0x0C, 0x0D); (0x20, 0x20) ].

Definition isalnum (c : N) : bool :=
  ((0x30 <=? c) && (c <=? 0x39)) || ((0x41 <=? c) && (c <=? 0x5A))
  || ((0x61 <=? c) && (c <=? 0x7A)).

(** An escaped character that stands for itself. *)
Definition isPunct (c : N) : bool := (c <? 0x80) && negb (c =? 0x5F) && negb (isalnum c).

(** A character with a meaning of its own outside brackets. *)
Definition isSpecial (c : byte) : bool :=
  existsb (Ascii.eqb c) (str "?+*{}|.^]").

(** The inside of a bracket class, after the opening bracket. *)
Fixpoint parseClass (s : gostring) (acc : list (N * N))
    : option (list (N * N) * gostring) :=
  match s with
  | [] => None
  | c :: s1 =>
      if Ascii.eqb c "]" then
        match acc with [] => None | _ :: _ => Some (acc, s1) end
      else if Ascii.eqb c "\" then
        match s1 with
        | [] => None
        | e :: s2 =>
            if Ascii.eqb e "s" then parseClass s2 (acc ++ perl_s)
            else if isPunct (u8 e) then parseClass s2 (acc ++ [(u8 e, u8 e)])
            else None
        end
      else
        match s1 with
        | d :: hi :: s3 =>
            if Ascii.eqb d "-" && negb (Ascii.eqb hi "]") then
              if negb (Ascii.eqb hi "\") && (u8 c <=? u8 hi)
              then parseClass s3 (acc ++ [(u8 c, u8 hi)]) else None
            else parseClass s1 (acc ++ [(u8 c, u8 c)])
        | _ => parseClass s1 (acc ++ [(u8 c, u8 c)])
        end
  end.

(** A repetition operator after an atom, if there is one. *)
Definition parseRepeat (atom : Regexp) (s : gostring) : option (Regexp * gostring) :=
  match s with
  | [] => Some (atom, s)
  | c :: s1 =>
      if Ascii.eqb c "?" then Some (OpQuest atom, s1)
      else if Ascii.eqb c "+" then Some (OpPlus atom, s1)
      else if Ascii.eqb c "{" then
        match s1 with
        | n :: comma :: close :: s4 =>
            if Ascii.eqb n "1" && Ascii.eqb comma "," && Ascii.eqb close "}"
            then Some (OpPlus atom, s4) else None
        | _ => None
        end
      else if Ascii.eqb c "*" then None
      else Some (atom, s)
  end.

Fixpoint concat (l : list Regexp) : option Regexp :=
  match l with
  | [] => None
  | [r] => Some r
  | r :: l' => option_map (OpConcat r) (concat l')
  end.

(** A sequence of pieces up to the end of the pattern or a closing
    parenthesis; [acc] holds the pieces read so far. *)
Fixpoint parseSeq (fuel : nat) (s : gostring) (acc : list Regexp)
    : option (Regexp * gostring) :=
  match fuel with
  | O => None
  | S n =>
      match s with
      | [] => option_map (fun r => (r, s)) (concat acc)
      | c :: s1 =>
          if Ascii.eqb c ")" then option_map (fun r => (r, s)) (concat acc)
          else
            let atom :=
              if Ascii.eqb c "(" then
                match parseSeq n s1 [] with
                | Some (r, close :: s2) =>
                    if Ascii.eqb close ")" then Some (OpCapture r, s2) else None
                | _ => None
                end
              else if Ascii.eqb c "[" then
                match parseClass s1 [] with
                | Some (ranges, s2) => Some (OpCharClass ranges, s2)
                | None => None
                end
              else if Ascii.eqb c "$" then Some (OpEndText, s1)
              else if Ascii.eqb c "\" then
                match s1 with
                | e :: s2 =>
                    if Ascii.eqb e "s" then Some (OpCharClass perl_s, s2)
                    else if isPunct (u8 e) then Some (OpLiteral e, s2)
                    else None
                | [] => None
                end
              else if isSpecial c then None
              else Some (OpLiteral c, s1) in
            match atom with
            | Some (a, s2) =>
                match parseRepeat a s2 with
                | Some (piece, s3) => parseSeq n s3 (acc ++ [piece])
                | None => None
                end
            | None => None
            end
      end
  end.

(** [Compile(expr)] *)
Definition Compile (expr : gostring) : option Regexp :=
  match parseSeq (S (len expr)) expr [] with
  | Some (re, []) => Some re
  | _ => None
  end.

(** [MustCompile(expr)]: [None] is its panic on an expression that does not
    compile. *)
Definition MustCompile (expr : gostring) : option Regexp := Compile expr.

End regexp.

(** ** Package [fmt] *)

Module fmt.

(** [Sprintf(format, args...)] for formats made of text and the verb [%s]
    with string operands. *)
Fixpoint Sprintf (format : gostring) (args : list gostring) : gostring :=
  match format with
  | [] => []
  | c :: format' =>
      match format' with
      | d :: rest =>
          if Ascii.eqb c "%" && Ascii.eqb d "s" then
            match args with
            | a :: args' => a ++ Sprintf rest args'
            | [] => str "%!s(MISSING)" ++ Sprintf rest []
            end
          else c :: Sprintf format' args
      | [] => [c]
      end
  end.

End fmt.

(** ** Package [prepare]: [pipeline_reorder.go] *)

(** The character class [[\s?a-zA-Z\.]] of the pattern: inside the brackets
    [\s] is the class [[\t\n\f\r ]], [?] is the character itself, and [\.]
    the period. *)
Definition surnameRanges : list (N * N) :=
  [ (0x09, 0x0A); (0x0C, 0x0D); (0x20, 0x20);     (* \s *)
    (0x3F, 0x3F);                                 (* ? *)
    (0x61, 0x7A);                                 (* a-z *)
    (0x41, 0x5A);                                 (* A-Z *)
    (0x2E, 0x2E) ].                               (* \. *)

(** The value of the package variable [surnamePrecedes], the pattern
    [(,?[\s?a-zA-Z\.]{1,})$] compiled (lemma [MustCompile_surnamePattern]). *)
Definition surnamePattern : gostring := "(,?[\s?a-zA-Z\.]{1,})$".

Definition surnamePrecedes : regexp.Regexp :=
  regexp.OpConcat
    (regexp.OpCapture
       (regexp.OpConcat
          (regexp.OpQuest (regexp.OpLiteral ","%char))
          (regexp.OpPlus (regexp.OpCharClass surnameRanges))))
    regexp.OpEndText.

Definition ReorderSDNName (name tpe : gostring) : gostring :=
  if negb (strings.EqualFold tpe "individual") then
    name (* only reorder individual names *)
  else
    let v := regexp.FindString surnamePrecedes name in
    if eqs v "" then
      name (* no match on 'Doe, John' *)
    else
      strings.TrimSpace
        (fmt.Sprintf "%s %s" [strings.TrimPrefix v ","; strings.TrimSuffix name v]).


(** *** Package initialisation

    The only package-level variable is [surnamePrecedes]; it is assigned
    once, when the package is initialised.  [None] is the panic of
    [MustCompile]. *)
Definition init : option regexp.Regexp := regexp.MustCompile surnamePattern.

(** ** The same code with every index checked

    Go panics on [s[i]] unless [0 <= i < len(s)] and on [s[i:j]] unless
    [0 <= i <= j <= len(s)].  The definitions above give a default there.
    This module has the same functions once more, in the option monad, with
    each index, each slice and each difference of two lengths checked:
    [None] is the run-time panic, and also the end of the rounds that the
    model gives to a loop.  The lemmas of the section "Every index is within
    bounds" show that no call returns [None], and that the result is the one
    of the definitions above. *)

Module checked.

Definition bind {A B : Type} (m : option A) (k : A -> option B) : option B :=
  match m with
  | Some a => k a
  | None => None
  end.

Notation "x <- m ;; k" := (bind m (fun x => k))
  (at level 61, m at next level, right associativity).
Notation "' pat <- m ;; k" := (bind m (fun x => match x with pat => k end))
  (at level 61, pat pattern, m at next level, right associativity).

(** [s[i]] *)
Definition at_ (s : gostring) (i : nat) : option N := option_map u8 (nth_error s i).

(** [s[i:j]] *)
Definition slice (s : gostring) (i j : nat) : option gostring :=
  if (i <=? j)%nat && (j <=? len s)%nat then Some (firstn (j - i) (skipn i s)) else None.

(** [a - b] where the code needs an [int] that is not negative. *)
Definition sub (a b : nat) : option nat :=
  if (b <=? a)%nat then Some (a - b)%nat else None.

(** *** [unicode/utf8] *)

Definition DecodeRuneInString (s : gostring) : option (rune * nat) :=
  let n := len s in
  if (n <? 1)%nat then Some (utf8.RuneError, 0%nat) else
  s0 <- at_ s 0 ;;
  let x := utf8.first s0 in
  if utf8.as_ <=? x then
    Some (if N.odd x then utf8.RuneError else s0, 1%nat)
  else
  let sz := N.to_nat (N.land x 7) in
  let accept := utf8.acceptRanges (N.shiftr x 4) in
  if (n <? sz)%nat then Some (utf8.RuneError, 1%nat) else
  s1 <- at_ s 1 ;;
  if (s1 <? fst accept) || (snd accept <? s1) then Some (utf8.RuneError, 1%nat) else
  if (sz <=? 2)%nat then
    Some (N.lor (N.shiftl (N.land s0 utf8.mask2) 6) (N.land s1 utf8.maskx), 2%nat)
  else
  s2 <- at_ s 2 ;;
  if (s2 <? utf8.locb) || (utf8.hicb <? s2) then Some (utf8.RuneError, 1%nat) else
  if (sz <=? 3)%nat then
    Some (N.lor (N.lor (N.shiftl (N.land s0 utf8.mask3) 12)
                       (N.shiftl (N.land s1 utf8.maskx) 6))
                (N.land s2 utf8.maskx), 3%nat)
  else
  s3 <- at_ s 3 ;;
  if (s3 <? utf8.locb) || (utf8.hicb <? s3) then Some (utf8.RuneError, 1%nat) else
  Some (N.lor (N.lor (N.lor (N.shiftl (N.land s0 utf8.mask4) 18)
                            (N.shiftl (N.land s1 utf8.maskx) 12))
                     (N.shiftl (N.land s2 utf8.maskx) 6))
              (N.land s3 utf8.maskx), 4%nat).

Fixpoint scanBack (s : gostring) (lim p : nat) : option nat :=
  match p with
  | O => Some O
  | S q => if (lim <? p)%nat
           then b <- at_ s q ;;
                if utf8.RuneStart b then Some p else scanBack s lim q
           else Some p
  end.

Definition DecodeLastRuneInString (s : gostring) : option (rune * nat) :=
  let end_ := len s in
  if (end_ =? 0)%nat then Some (utf8.RuneError, 0%nat) else
  start <- sub end_ 1 ;;
  r <- at_ s start ;;
  if r <? utf8.RuneSelf then Some (r, 1%nat) else
  let lim := (end_ - utf8.UTFMax)%nat in     (* max(end - UTFMax, 0) *)
  p <- scanBack s lim start ;;
  let start := pred p in                     (* if start < 0 { start = 0 } *)
  t <- slice s start end_ ;;
  '(r, size) <- DecodeRuneInString t ;;
  if negb (start + size =? end_)%nat then Some (utf8.RuneError, 1%nat) else Some (r, size).

(** *** [strings] *)

Definition HasPrefix (s prefix : gostring) : option bool :=
  if (len prefix <=? len s)%nat
  then p <- slice s 0 (len prefix) ;; Some (eqs p prefix)
  else Some false.

Definition HasSuffix (s suffix : gostring) : option bool :=
  if (len suffix <=? len s)%nat
  then i <- sub (len s) (len suffix) ;;
       p <- slice s i (len s) ;; Some (eqs p suffix)
  else Some false.

Definition TrimPrefix (s prefix : gostring) : option gostring :=
  b <- HasPrefix s prefix ;;
  if b then slice s (len prefix) (len s) else Some s.

Definition TrimSuffix (s suffix : gostring) : option gostring :=
  b <- HasSuffix s suffix ;;
  if b then j <- sub (len s) (len suffix) ;; slice s 0 j else Some s.

(** The inner [None] is Go's [-1]. *)
Fixpoint indexFunc_loop (fuel : nat) (f : rune -> bool) (truth : bool)
    (i : nat) (s : gostring) : option (option nat) :=
  match s with
  | [] => Some None
  | _ :: _ =>
      match fuel with
      | O => None
      | S n =>
          '(r, size) <- DecodeRuneInString s ;;
          if Bool.eqb (f r) truth then Some (Some i)
          else rest <- slice s size (len s) ;;
               indexFunc_loop n f truth (i + size) rest
      end
  end.

Definition indexFunc (s : gostring) (f : rune -> bool) (truth : bool)
    : option (option nat) :=
  indexFunc_loop (len s) f truth 0 s.

Fixpoint lastIndexFunc_loop (fuel : nat) (s : gostring) (f : rune -> bool)
    (truth : bool) (i : nat) : option (option nat) :=
  if (0 <? i)%nat then
    match fuel with
    | O => None
    | S n =>
        t <- slice s 0 i ;;
        '(r, size) <- DecodeLastRuneInString t ;;
        i <- sub i size ;;
        if Bool.eqb (f r) truth then Some (Some i)
        else lastIndexFunc_loop n s f truth i
    end
  else Some None.

Definition lastIndexFunc (s : gostring) (f : rune -> bool) (truth : bool)
    : option (option nat) :=
  lastIndexFunc_loop (len s) s f truth (len s).

Definition TrimLeftFunc (s : gostring) (f : rune -> bool) : option gostring :=
  i <- indexFunc s f false ;;
  match i with
  | None => Some (str "")
  | Some i => slice s i (len s)
  end.

Definition TrimRightFunc (s : gostring) (f : rune -> bool) : option gostring :=
  i <- lastIndexFunc s f false ;;
  match i with
  | Some i =>
      c <- at_ s i ;;
      if utf8.RuneSelf <=? c then
        t <- slice s i (len s) ;;
        '(_, wid) <- DecodeRuneInString t ;;
        slice s 0 (i + wid)
      else slice s 0 (i + 1)
  | None => slice s 0 0
  end.

Definition TrimFunc (s : gostring) (f : rune -> bool) : option gostring :=
  t <- TrimLeftFunc s f ;; TrimRightFunc t f.

Fixpoint TrimSpace_stop (s : gostring) (stop : nat) : option gostring :=
  match stop with
  | O => slice s 0 0
  | S k =>
      c <- at_ s k ;;
      if utf8.RuneSelf <=? c then
        t <- slice s 0 stop ;; TrimRightFunc t unicode.IsSpace
      else if strings.asciiSpace c then TrimSpace_stop s k
      else slice s 0 stop
  end.

Fixpoint TrimSpace_start (s : gostring) : option gostring :=
  match s with
  | [] => TrimSpace_stop s (len s)
  | c :: s' =>
      if utf8.RuneSelf <=? u8 c then TrimFunc s unicode.IsSpace
      else if strings.asciiSpace (u8 c) then TrimSpace_start s'
      else TrimSpace_stop s (len s)
  end.

Definition TrimSpace (s : gostring) : option gostring := TrimSpace_start s.

Fixpoint foldWalk (fuel : nat) (sr tr r : rune) : option rune :=
  if negb (r =? sr) && (r <? tr) then
    match fuel with
    | O => None
    | S n => foldWalk n sr tr (unicode.SimpleFold r)
    end
  else Some r.

Definition foldStep (sr tr : rune) : option bool :=
  if tr =? sr then Some true else
  let '(sr, tr) := if tr <? sr then (tr, sr) else (sr, tr) in
  if tr <? utf8.RuneSelf then
    Some ((0x41 <=? sr) && (sr <=? 0x5A) && (tr =? sr + 0x61 - 0x41))
  else
    r <- foldWalk 4 sr tr (unicode.SimpleFold sr) ;;
    Some (r =? tr).

Fixpoint EqualFold_unicode (fuel : nat) (s t : gostring) : option bool :=
  match s with
  | [] => Some (len t =? 0)%nat
  | _ :: _ =>
      match fuel with
      | O => None
      | S n =>
          '(sr, size) <- DecodeRuneInString s ;;
          match t with
          | [] => Some false
          | c :: t' =>
              '(tr, t) <-
                (if u8 c <? utf8.RuneSelf then Some (u8 c, t')
                 else '(r, size) <- DecodeRuneInString t ;;
                      t <- slice t size (len t) ;; Some (r, t)) ;;
              b <- foldStep sr tr ;;
              if b then rest <- slice s size (len s) ;; EqualFold_unicode n rest t
              else Some false
          end
      end
  end.

Fixpoint EqualFold (s t : gostring) : option bool :=
  match s, t with
  | c :: s', d :: t' =>
      let sr := u8 c in
      let tr := u8 d in
      if utf8.RuneSelf <=? N.lor sr tr then EqualFold_unicode (len s) s t
      else if tr =? sr then EqualFold s' t'
      else
        let '(sr, tr) := if tr <? sr then (tr, sr) else (sr, tr) in
        if (0x41 <=? sr) && (sr <=? 0x5A) && (tr =? sr + 0x61 - 0x41)
        then EqualFold s' t' else Some false
  | _, _ => Some (len s =? len t)%nat
  end.

(** *** [regexp] *)

(** The inner [None] is the absence of a match. *)
Fixpoint find (fuel : nat) (re : regexp.Regexp) (s : gostring)
    : option (option gostring) :=
  match regexp.run fuel re s with
  | rest :: _ => j <- sub (len s) (len rest) ;;
                 v <- slice s 0 j ;; Some (Some v)
  | [] => match s with
          | [] => Some None
          | _ :: s' => find fuel re s'
          end
  end.

Definition FindString (re : regexp.Regexp) (s : gostring) : option gostring :=
  m <- find (S (len s)) re s ;;
  match m with
  | Some v => Some v
  | None => Some (str "")
  end.

(** *** [prepare] *)

(** A call of [ReorderSDNName] in a package whose variable holds [re]. *)
Definition ReorderSDNName (surnamePrecedes : regexp.Regexp) (name tpe : gostring)
    : option gostring :=
  b <- EqualFold tpe "individual" ;;
  if negb b then
    Some name
  else
    v <- FindString surnamePrecedes name ;;
    if eqs v "" then
      Some name
    else
      p <- TrimPrefix v "," ;;
      q <- TrimSuffix name v ;;
      TrimSpace (fmt.Sprintf "%s %s" [p; q]).

End checked.

(** ** Vocabulary of the properties *)

(** A character the class of the pattern accepts. *)
Definition surnameClass (c : byte) : bool := regexp.inClass surnameRanges (u8 c).

(** A non-empty run of characters of the class. *)
Definition classRun (s : gostring) : bool :=
  match s with
  | [] => false
  | _ :: _ => forallb surnameClass s
  end.

(** The shape the pattern matches up to the end of the text: an optional
    comma, then a non-empty run of characters of the class. *)
Definition suffixShape (s : gostring) : bool :=
  classRun s
  || match s with
     | c :: b => Ascii.eqb c "," && classRun b
     | [] => false
     end.

(** The longest suffix of the text that has the shape. *)
Fixpoint firstShape (s : gostring) : option gostring :=
  if suffixShape s then Some s
  else match s with
       | [] => None
       | _ :: s' => firstShape s'
       end.

(** ASCII lower-casing, of a byte and of a string: the plain reading of
    "equal up to case". *)
Definition toLowerASCII (c : byte) : byte :=
  if (0x41 <=? u8 c) && (u8 c <=? 0x5A) then ascii_of_N (u8 c + 0x20) else c.

Definition lowerASCII (s : gostring) : gostring := map toLowerASCII s.

(** A lower-case ASCII letter other than [k] and [s], the two letters whose
    case orbits leave ASCII. *)
Definition plainLower (c : byte) : bool :=
  (0x61 <=? u8 c) && (u8 c <=? 0x7A) && negb (u8 c =? 0x6B) && negb (u8 c =? 0x73).

(** The type names an individual: it is the word "individual" up to the
    case of its ASCII letters. *)
Definition isIndividual (tpe : gostring) : bool := eqs (lowerASCII tpe) "individual".

(** A string with one leading comma removed, if it has one. *)
Definition dropComma (v : gostring) : gostring :=
  match v with
  | c :: b => if Ascii.eqb c "," then b else v
  | [] => []
  end.

(** An ASCII letter. *)
Definition isLetter (c : byte) : bool :=
  ((0x41 <=? u8 c) && (u8 c <=? 0x5A)) || ((0x61 <=? u8 c) && (u8 c <=? 0x7A)).

(** Dropping ASCII white space from the left and from the right. *)
Fixpoint trimLeftASCII (s : gostring) : gostring :=
  match s with
  | [] => []
  | c :: s' => if strings.asciiSpace (u8 c) then trimLeftASCII s' else s
  end.

Fixpoint trimRightASCII (s : gostring) : gostring :=
  match s with
  | [] => []
  | c :: s' =>
      match trimRightASCII s' with
      | [] => if strings.asciiSpace (u8 c) then [] else [c]
      | t => c :: t
      end
  end.

(** Every byte is ASCII. *)
Definition isASCII (s : gostring) : bool := forallb (fun c => u8 c <? 0x80) s.

(** White space of the pattern, the class [\s]: tab, line feed, form feed,
    carriage return and space. *)
Definition patternSpace (c : byte) : bool :=
  ((0x09 <=? u8 c) && (u8 c <=? 0x0A)) || ((0x0C <=? u8 c) && (u8 c <=? 0x0D))
  || (u8 c =? 0x20).

(** A letter, white space of the pattern, or a period. *)
Definition nameChar (c : byte) : bool := isLetter c || patternSpace c || (u8 c =? 0x2E).

(** A letter, a space, or a period. *)
Definition lspChar (c : byte) : bool := isLetter c || (u8 c =? 0x20) || (u8 c =? 0x2E).

Definition notQuestion (c : byte) : bool := negb (u8 c =? 0x3F).

(** [v] is an optional comma followed by one or more characters of [P]. *)
Definition nameSuffix (P : byte -> bool) (v : gostring) : Prop :=
  exists b, (v = b \/ v = ","%char :: b) /\ b <> [] /\ forallb P b = true.

(** [name] ends in such a text. *)
Definition hasNameSuffix (P : byte -> bool) (name : gostring) : Prop :=
  exists pre v, name = pre ++ v /\ nameSuffix P v.

(** The tab character. *)
Definition tab : byte := ascii_of_N 0x09.

(** The number of commas of a text. *)
Definition commas (s : gostring) : nat := List.length (filter (Ascii.eqb ","%char) s).

(** A name written with the characters of the class and at most one comma. *)
Definition plainName (n : gostring) : bool :=
  forallb (fun c => surnameClass c || Ascii.eqb ","%char c) n && (commas n <=? 1)%nat.

(** The text begins a rune: it is empty or its first byte starts a rune. *)
Definition boundary (t : gostring) : bool :=
  match t with
  | [] => true
  | c :: _ => utf8.RuneStart (u8 c)
  end.

(** The first rune, the last rune of a text is white space. *)
Definition startsWithSpace (s : gostring) : bool :=
  unicode.IsSpace (fst (utf8.DecodeRuneInString s)).

Definition endsWithSpace (s : gostring) : bool :=
  unicode.IsSpace (fst (utf8.DecodeLastRuneInString s)).

(** Every rune of a text is white space. *)
Definition spaces (s : gostring) : bool := forallb unicode.IsSpace (utf8.runes s).

(** The runes of a text that are not white space, in their order. *)
Definition content (s : gostring) : list rune :=
  filter (fun r => negb (unicode.IsSpace r)) (utf8.runes s).

(** The runes of a text other than white space and commas. *)
Definition nameRunes (s : gostring) : list rune :=
  filter (fun r => negb (unicode.IsSpace r) && negb (r =? 0x2C)) (utf8.runes s).

(** The UTF-8 bytes of "Mueller" written with u-umlaut, and of a no-break
    space. *)
Definition Mueller : gostring := "M" ++ [ascii_of_N 0xC3; ascii_of_N 0xBC] ++ "ller".
Definition nbsp : gostring := [ascii_of_N 0xC2; ascii_of_N 0xA0].

(** The letters among the runes of Latin-1, as [unicode.IsLetter] has
    them: the ASCII letters, the two ordinal indicators, the micro sign, and
    the accented letters, without the signs of multiplication and division. *)
Definition latin1Letter (r : rune) : bool :=
  ((0x41 <=? r) && (r <=? 0x5A)) || ((0x61 <=? r) && (r <=? 0x7A))
  || (r =? 0xAA) || (r =? 0xB5) || (r =? 0xBA)
  || ((0xC0 <=? r) && (r <=? 0xD6)) || ((0xD8 <=? r) && (r <=? 0xF6))
  || ((0xF8 <=? r) && (r <=? 0xFF)).

(** A byte of the class, spelled out: an ASCII letter, white space of the
    pattern, a period or a question mark. *)
Definition classByte (c : byte) : bool :=
  isLetter c || patternSpace c || (u8 c =? 0x2E) || (u8 c =? 0x3F).

(** The last byte of a text is of the class. *)
Definition endsInClass (s : gostring) : bool :=
  match rev s with
  | c :: _ => classByte c
  | [] => false
  end.

(** A non-empty text of bytes of the class that neither begins nor ends
    with white space. *)
Definition tidy (s : gostring) : bool :=
  classRun s
  && negb (strings.asciiSpace (u8 (hd zero s)))
  && negb (strings.asciiSpace (u8 (last s zero))).


(** * Properties *)

(** [lia] reads [mod] and [/] by a constant as Euclidean division. *)
Ltac Zify.zify_post_hook ::= Z.to_euclidean_division_equations.

(** ** Strings *)

Lemma eqs_eq (s t : gostring) : eqs s t = true <-> s = t.
Proof.
  revert t; induction s as [|c s IH]; intros [|d t]; simpl; split;
    try congruence; try reflexivity.
  - rewrite andb_true_iff, Ascii.eqb_eq, IH. intros [-> ->]; reflexivity.
  - intros E; injection E as -> ->. rewrite Ascii.eqb_refl. apply IH; reflexivity.
Qed.

Lemma eqs_refl (s : gostring) : eqs s s = true.
Proof. apply eqs_eq; reflexivity. Qed.

Lemma eqs_nil (s : gostring) : eqs s [] = match s with [] => true | _ => false end.
Proof. destruct s; reflexivity. Qed.

Lemma slice_0_len (s : gostring) : slice s 0 (len s) = s.
Proof. unfold slice, len. simpl. rewrite Nat.sub_0_r. apply firstn_all. Qed.

Lemma slice_0 (s : gostring) (j : nat) : slice s 0 j = firstn j s.
Proof. unfold slice. simpl. rewrite Nat.sub_0_r. reflexivity. Qed.

Lemma slice_to_len (s : gostring) (i : nat) : slice s i (len s) = skipn i s.
Proof.
  unfold slice, len. apply firstn_all2. rewrite length_skipn. lia.
Qed.

(** ** The pattern *)

Lemma plus_class_nil (R : list (N * N)) (fuel n : nat) (s : gostring) :
  In [] (regexp.plus (regexp.run fuel (regexp.OpCharClass R)) n s) <->
  s <> [] /\ forallb (fun c => regexp.inClass R (u8 c)) s = true /\ (len s <= n)%nat.
Proof.
  revert s; induction n as [|n IH]; intros s; simpl.
  - split; [tauto|]. intros (Hs & _ & Hl). destruct s; [congruence|simpl in Hl; lia].
  - destruct s as [|d s]; simpl.
    + split; [tauto|]. intros (Hs & _); congruence.
    + destruct (regexp.inClass R (u8 d)) eqn:Hd; simpl.
      * rewrite app_nil_r, in_app_iff, IH. simpl. split.
        -- intros [(Hs & Ha & Hl)|[E|[]]].
           ++ split; [discriminate|]. split; [assumption|unfold len in *; simpl; lia].
           ++ subst s. split; [discriminate|]. split; [reflexivity|simpl; lia].
        -- intros (_ & Ha & Hl). destruct s as [|e s]; [right; left; reflexivity|].
           left. split; [discriminate|]. split; [assumption|unfold len in *; simpl in *; lia].
      * split; [tauto|]. intros (_ & Ha & _); discriminate.
Qed.

Lemma endText_after (fuel : nat) (l : list gostring) :
  (In [] l -> exists l', flat_map (regexp.run fuel regexp.OpEndText) l = [] :: l')
  /\ (~ In [] l -> flat_map (regexp.run fuel regexp.OpEndText) l = []).
Proof.
  induction l as [|r l [IH1 IH2]]; simpl.
  - split; [tauto|reflexivity].
  - destruct r as [|c r]; simpl.
    + split; [eexists; reflexivity|]. intros H; exfalso; apply H; left; reflexivity.
    + split.
      * intros [E|H]; [discriminate|auto].
      * intros H. apply IH2. intros H'. apply H. right; assumption.
Qed.

Lemma classRun_spec (s : gostring) :
  classRun s = true <-> s <> [] /\ forallb surnameClass s = true.
Proof.
  destruct s; simpl; split.
  - discriminate.
  - intros [H _]; congruence.
  - intros H; split; [discriminate|assumption].
  - intros [_ H]; assumption.
Qed.

Lemma comma_not_class : surnameClass ","%char = false.
Proof. reflexivity. Qed.

(** What the pattern yields at one position of the text: the whole rest of
    the text when it has the shape, nothing otherwise. *)
Lemma run_surnamePrecedes (fuel : nat) (s : gostring) :
  (len s <= fuel)%nat ->
  (suffixShape s = true -> exists l, regexp.run fuel surnamePrecedes s = [] :: l)
  /\ (suffixShape s = false -> regexp.run fuel surnamePrecedes s = []).
Proof.
  intros Hl. unfold surnamePrecedes.
  cbn [regexp.run].
  set (P := regexp.plus (regexp.run fuel (regexp.OpCharClass surnameRanges)) fuel).
  assert (HP : forall t, (len t <= fuel)%nat -> (In [] (P t) <-> classRun t = true)).
  { intros t Ht. unfold P. rewrite plus_class_nil, classRun_spec.
    unfold surnameClass. tauto. }
  assert (Hin : In [] (flat_map P
            (match s with
             | [] => []
             | d :: s' => if Ascii.eqb ","%char d then [s'] else []
             end ++ [s])) <-> suffixShape s = true).
  { unfold suffixShape. rewrite orb_true_iff, in_flat_map.
    split.
    - intros (t & Ht & Hn). apply in_app_iff in Ht. destruct Ht as [Ht|[<-|[]]].
      + destruct s as [|d s']; [destruct Ht|].
        destruct (Ascii.eqb ","%char d) eqn:E; [|destruct Ht].
        destruct Ht as [<-|[]]. right.
        rewrite Ascii.eqb_sym, E. simpl. apply HP; [unfold len in *; simpl in *; lia|assumption].
      + left. apply HP; assumption.
    - intros [H|H].
      + exists s. split; [apply in_app_iff; right; left; reflexivity|apply HP; assumption].
      + destruct s as [|d s']; [discriminate|].
        apply andb_true_iff in H. destruct H as [E H].
        exists s'. rewrite Ascii.eqb_sym, E. split; [left; reflexivity|].
        apply HP; [unfold len in *; simpl in *; lia|assumption]. }
  destruct (endText_after fuel (flat_map P
            (match s with
             | [] => []
             | d :: s' => if Ascii.eqb ","%char d then [s'] else []
             end ++ [s]))) as [H1 H2].
  split; intros H.
  - apply H1, Hin, H.
  - apply H2. rewrite Hin, H. discriminate.
Qed.

Lemma find_surnamePrecedes (fuel : nat) (s : gostring) :
  (len s <= fuel)%nat -> regexp.find fuel surnamePrecedes s = firstShape s.
Proof.
  induction s as [|c s IH]; intros Hl.
  - destruct (run_surnamePrecedes fuel [] Hl) as [_ H2].
    cbn [regexp.find firstShape]. rewrite H2; reflexivity.
  - destruct (run_surnamePrecedes fuel (c :: s) Hl) as [H1 H2].
    cbn [regexp.find firstShape].
    destruct (suffixShape (c :: s)) eqn:E.
    + destruct (H1 eq_refl) as [l ->]. simpl len. rewrite Nat.sub_0_r.
      change (S (len s)) with (len (c :: s)). rewrite slice_0_len. reflexivity.
    + rewrite (H2 eq_refl). apply IH. unfold len in *; simpl in *; lia.
Qed.

(** [FindString] on the pattern returns the longest suffix that has the
    shape, and [""] when no suffix has it. *)
Lemma FindString_surnamePrecedes (s : gostring) :
  regexp.FindString surnamePrecedes s =
  match firstShape s with Some v => v | None => [] end.
Proof.
  unfold regexp.FindString. rewrite find_surnamePrecedes by lia. reflexivity.
Qed.

(** ** UTF-8 decoding *)

Lemma lor_ge_pow2_l (a b k : N) : 2 ^ k <= a -> 2 ^ k <= N.lor a b.
Proof.
  intros H.
  assert (Ha : 0 < a).
  { assert (0 < 2 ^ k) by (apply N.neq_0_lt_0, N.pow_nonzero; discriminate). lia. }
  assert (Hl : 0 < N.lor a b).
  { apply N.neq_0_lt_0. intros E. apply N.lor_eq_0_iff in E. lia. }
  apply N.log2_le_pow2; [assumption|].
  rewrite N.log2_lor. apply N.log2_le_pow2 in H; [|assumption]. lia.
Qed.

Lemma lor_ge_pow2_r (a b k : N) : 2 ^ k <= b -> 2 ^ k <= N.lor a b.
Proof. rewrite N.lor_comm. apply lor_ge_pow2_l. Qed.

Lemma u8_bound (c : byte) : u8 c < 256.
Proof. apply N_ascii_bounded. Qed.

Lemma Decode_ascii (c : byte) (s : gostring) :
  u8 c < 0x80 -> utf8.DecodeRuneInString (c :: s) = (u8 c, 1%nat).
Proof.
  intros H. unfold utf8.DecodeRuneInString.
  change (at_ (c :: s) 0) with (u8 c). cbn [len List.length Nat.ltb Nat.leb].
  unfold utf8.first. destruct (N.ltb_spec (u8 c) 0x80); [reflexivity|lia].
Qed.

Ltac split_first b :=
  unfold utf8.first;
  repeat match goal with
         | |- context [N.ltb b ?k] => destruct (N.ltb_spec b k)
         | |- context [N.eqb b ?k] => destruct (N.eqb_spec b k)
         end.

Ltac split_ifs :=
  repeat match goal with
         | |- context [if ?c then _ else _] => destruct c eqn:?
         end.

Ltac lor_bound :=
  first [ lia
        | apply lor_ge_pow2_l; lor_bound
        | apply lor_ge_pow2_r; lor_bound ].

(** A sequence that does not start with an ASCII byte never decodes to an
    ASCII rune: over-long encodings are refused. *)
Lemma Decode_not_ascii (c : byte) (s : gostring) :
  0x80 <= u8 c -> 0x80 <= fst (utf8.DecodeRuneInString (c :: s)).
Proof.
  intros H. unfold utf8.DecodeRuneInString.
  change (at_ (c :: s) 0) with (u8 c).
  generalize (at_ (c :: s) 1) (at_ (c :: s) 2) (at_ (c :: s) 3) (len (c :: s)).
  intros b1 b2 b3 n.
  pose proof (u8_bound c) as Hc. revert H Hc. generalize (u8 c) as b0. intros b0 H Hc.
  destruct (n <? 1)%nat; [vm_compute; discriminate|].
  split_first b0; try lia;
    cbv [utf8.as_ utf8.xx utf8.s1 utf8.s2 utf8.s3 utf8.s4 utf8.s5 utf8.s6 utf8.s7];
    cbn [N.leb N.compare Pos.compare Pos.compare_cont N.odd N.land Pos.land N.to_nat
         Pos.to_nat Pos.iter_op Nat.add N.shiftr Pos.shiftr Pos.iter N.div2 Pos.div2
         utf8.acceptRanges fst snd Pos.Nsucc_double Pos.Ndouble];
    try (vm_compute; discriminate).
  all: split_ifs; cbn [fst]; try (vm_compute; discriminate).
  all: repeat match goal with
              | H : (_ || _)%bool = false |- _ =>
                  apply orb_false_iff in H; destruct H as [? ?]
              | H : (_ <? _) = false |- _ => apply N.ltb_ge in H
              end.
  all: unfold utf8.mask2, utf8.mask3, utf8.mask4, utf8.maskx, utf8.locb, utf8.hicb in *.
  all: change 0x1F with (N.ones 5); change 0x0F with (N.ones 4);
       change 0x07 with (N.ones 3); change 0x3F with (N.ones 6).
  all: rewrite ?N.land_ones, ?N.shiftl_mul_pow2.
  all: change 0x80 with (2 ^ 7).
  all: lor_bound.
Qed.

(** ** Case folding *)

(** Case analysis on every comparison of the goal; the cases that
    contradict one another are dropped at once. *)
Ltac split_cmp :=
  repeat (match goal with
          | |- context [N.ltb ?a ?b] => destruct (N.ltb_spec a b)
          | |- context [N.leb ?a ?b] => destruct (N.leb_spec a b)
          | |- context [N.eqb ?a ?b] => destruct (N.eqb_spec a b)
          end; try (exfalso; lia)).

(** [SimpleFold] stays inside the orbits it is given on. *)
Lemma SimpleFold_orbit (r : rune) :
  r < 0x80 \/ r = 0x017F \/ r = 0x212A ->
  let r' := unicode.SimpleFold r in r' < 0x80 \/ r' = 0x017F \/ r' = 0x212A.
Proof.
  intros H. cbv zeta. unfold unicode.SimpleFold, unicode.asciiFold.
  split_cmp; cbn [andb]; lia.
Qed.

Lemma foldStep_not_ascii (sr tr : rune) :
  0x80 <= sr -> 0x61 <= tr <= 0x7A -> tr <> 0x6B -> tr <> 0x73 ->
  strings.foldStep sr tr = false.
Proof.
  intros Hs Ht Hk Hss. unfold strings.foldStep.
  destruct (N.eqb_spec tr sr); [lia|].
  destruct (N.ltb_spec tr sr); [|lia].
  unfold utf8.RuneSelf. destruct (N.ltb_spec sr 0x80); [lia|].
  assert (E1 : unicode.SimpleFold tr = tr - 0x20).
  { unfold unicode.SimpleFold, unicode.asciiFold. split_cmp; cbn [andb]; lia. }
  assert (E2 : unicode.SimpleFold (tr - 0x20) = tr).
  { unfold unicode.SimpleFold, unicode.asciiFold. split_cmp; cbn [andb]; lia. }
  rewrite E1. cbn [strings.foldWalk].
  destruct (N.eqb_spec (tr - 0x20) tr); [lia|].
  destruct (N.ltb_spec (tr - 0x20) sr); [|lia].
  cbn [negb andb]. rewrite E2, N.eqb_refl. cbn [negb andb].
  apply N.eqb_neq. lia.
Qed.

Lemma plainLower_range (d : byte) :
  plainLower d = true -> 0x61 <= u8 d <= 0x7A /\ u8 d <> 0x6B /\ u8 d <> 0x73.
Proof.
  unfold plainLower. rewrite !andb_true_iff, !negb_true_iff.
  intros [[[H1 H2] H3] H4].
  apply N.leb_le in H1, H2. apply N.eqb_neq in H3, H4. lia.
Qed.

Lemma EqualFold_unicode_false (n : nat) (c d : byte) (s t : gostring) :
  0x80 <= u8 c -> plainLower d = true ->
  strings.EqualFold_unicode (S n) (c :: s) (d :: t) = false.
Proof.
  intros Hc Hd. apply plainLower_range in Hd. destruct Hd as (Hr & Hk & Hs).
  cbn [strings.EqualFold_unicode].
  pose proof (Decode_not_ascii c s Hc) as Hdec.
  destruct (utf8.DecodeRuneInString (c :: s)) as [sr size]. cbn [fst] in Hdec.
  unfold utf8.RuneSelf. destruct (N.ltb_spec (u8 d) 0x80); [|lia].
  rewrite foldStep_not_ascii; [reflexivity|assumption..].
Qed.

Lemma lor_lt_128 (a b : N) : a < 0x80 -> b < 0x80 -> N.lor a b < 0x80.
Proof.
  intros Ha Hb. destruct (N.eq_dec (N.lor a b) 0) as [E|E]; [lia|].
  change 0x80 with (2 ^ 7) in *. apply N.log2_lt_pow2; [lia|].
  rewrite N.log2_lor.
  assert (N.log2 a < 7).
  { destruct (N.eq_dec a 0) as [->|]; [reflexivity|apply N.log2_lt_pow2; lia]. }
  assert (N.log2 b < 7).
  { destruct (N.eq_dec b 0) as [->|]; [reflexivity|apply N.log2_lt_pow2; lia]. }
  lia.
Qed.

Lemma u8_inj (c d : byte) : u8 c = u8 d -> c = d.
Proof.
  unfold u8. intros H. rewrite <- (ascii_N_embedding c), <- (ascii_N_embedding d), H.
  reflexivity.
Qed.

Lemma ascii_eqb_u8 (c d : byte) : Ascii.eqb c d = (u8 c =? u8 d).
Proof.
  destruct (N.eqb_spec (u8 c) (u8 d)) as [E|E].
  - apply u8_inj in E. subst. apply Ascii.eqb_refl.
  - apply Ascii.eqb_neq. congruence.
Qed.

Lemma u8_toLowerASCII (c : byte) :
  u8 (toLowerASCII c) =
  if (0x41 <=? u8 c) && (u8 c <=? 0x5A) then u8 c + 0x20 else u8 c.
Proof.
  unfold toLowerASCII. pose proof (u8_bound c).
  destruct ((0x41 <=? u8 c) && (u8 c <=? 0x5A)) eqn:E; [|reflexivity].
  apply andb_true_iff in E. destruct E as [E1 E2]. apply N.leb_le in E1, E2.
  unfold u8 at 1. apply N_ascii_embedding. lia.
Qed.

(** One round of [EqualFold] against a plain lower-case letter. *)
Lemma EqualFold_cons (c d : byte) (s t : gostring) :
  plainLower d = true ->
  strings.EqualFold (c :: s) (d :: t) =
  Ascii.eqb (toLowerASCII c) d && strings.EqualFold s t.
Proof.
  intros Hd. pose proof (plainLower_range d Hd) as (Hr & Hk & Hs).
  cbn [strings.EqualFold]. unfold utf8.RuneSelf.
  rewrite ascii_eqb_u8, u8_toLowerASCII.
  destruct (N.leb_spec 0x80 (N.lor (u8 c) (u8 d))) as [H|H].
  - assert (Hc : 0x80 <= u8 c).
    { destruct (N.lt_ge_cases (u8 c) 0x80) as [Hlt|]; [|assumption].
      pose proof (lor_lt_128 (u8 c) (u8 d) Hlt). lia. }
    change (len (c :: s)) with (S (len s)).
    rewrite EqualFold_unicode_false by assumption.
    split_cmp; cbn [andb] in *; try reflexivity; lia.
  - assert (Hc : u8 c < 0x80).
    { change 0x80 with (2 ^ 7) in *.
      destruct (N.lt_ge_cases (u8 c) (2 ^ 7)) as [|Hge]; [assumption|].
      pose proof (lor_ge_pow2_l _ (u8 d) _ Hge). lia. }
    destruct (N.eqb_spec (u8 d) (u8 c)) as [E|E].
    + rewrite E. split_cmp; cbn [andb] in *; try reflexivity; lia.
    + destruct (N.ltb_spec (u8 d) (u8 c)).
      * split_cmp; cbn [andb] in *; try reflexivity; lia.
      * split_cmp; cbn [andb] in *; try reflexivity; lia.
Qed.

(** Against a word of plain lower-case letters, Go's Unicode case folding
    is ASCII case folding: no rune outside ASCII folds to such a letter. *)
Lemma EqualFold_plain (p : gostring) :
  forallb plainLower p = true ->
  forall t, strings.EqualFold t p = eqs (lowerASCII t) p.
Proof.
  induction p as [|d p IH]; intros Hp t.
  - destruct t; reflexivity.
  - cbn [forallb] in Hp. apply andb_true_iff in Hp. destruct Hp as [Hd Hp].
    destruct t as [|c t]; [reflexivity|].
    rewrite EqualFold_cons by assumption. rewrite IH by assumption. reflexivity.
Qed.

Lemma EqualFold_individual (t : gostring) :
  strings.EqualFold t "individual" = eqs (lowerASCII t) "individual".
Proof. apply EqualFold_plain. reflexivity. Qed.

(** ** The library calls of [ReorderSDNName] *)

Lemma Sprintf_s_s (a b : gostring) : fmt.Sprintf "%s %s" [a; b] = a ++ str " " ++ b.
Proof. cbn. rewrite app_nil_r. reflexivity. Qed.

Lemma TrimPrefix_comma (v : gostring) : strings.TrimPrefix v "," = dropComma v.
Proof.
  destruct v as [|c b]; [reflexivity|].
  unfold strings.TrimPrefix, strings.HasPrefix, dropComma.
  cbn [str list_ascii_of_string len List.length Nat.leb andb].
  rewrite slice_0. cbn [firstn eqs]. rewrite andb_true_r.
  destruct (Ascii.eqb c ","); [|reflexivity].
  change (S (List.length b)) with (len (c :: b)). rewrite slice_to_len. reflexivity.
Qed.

Lemma TrimSuffix_app (pre v : gostring) : strings.TrimSuffix (pre ++ v) v = pre.
Proof.
  unfold strings.TrimSuffix, strings.HasSuffix.
  assert (E : (len (pre ++ v) - len v = len pre)%nat).
  { unfold len. rewrite length_app. lia. }
  rewrite E, slice_to_len, slice_0.
  rewrite skipn_app, skipn_all, Nat.sub_diag. cbn [skipn app].
  rewrite eqs_refl, andb_true_r.
  replace (len v <=? len (pre ++ v))%nat with true
    by (symmetry; apply Nat.leb_le; unfold len; rewrite length_app; lia).
  rewrite firstn_app, firstn_all, Nat.sub_diag. cbn [firstn]. apply app_nil_r.
Qed.

(** ** The longest suffix of the shape *)

Lemma suffixShape_nonempty (v : gostring) : suffixShape v = true -> v <> [].
Proof. destruct v; [discriminate|discriminate]. Qed.

Lemma firstShape_some (s v : gostring) :
  firstShape s = Some v ->
  suffixShape v = true /\ exists pre, s = pre ++ v.
Proof.
  induction s as [|c s IH]; cbn [firstShape].
  - destruct (suffixShape []) eqn:E; [|discriminate].
    intros H; injection H as <-. split; [assumption|exists []; reflexivity].
  - destruct (suffixShape (c :: s)) eqn:E.
    + intros H; injection H as <-. split; [assumption|exists []; reflexivity].
    + intros H. destruct (IH H) as [Hv [pre ->]]. split; [assumption|].
      exists (c :: pre); reflexivity.
Qed.

Lemma firstShape_none (s : gostring) :
  firstShape s = None -> forall pre v, s = pre ++ v -> suffixShape v = false.
Proof.
  induction s as [|c s IH]; cbn [firstShape].
  - intros _ pre v E. symmetry in E. apply app_eq_nil in E. destruct E as [_ ->].
    reflexivity.
  - destruct (suffixShape (c :: s)) eqn:E; [discriminate|].
    intros H pre v Ev. destruct pre as [|c' pre].
    + cbn in Ev. subst v. assumption.
    + injection Ev as _ Ev. apply (IH H pre v Ev).
Qed.

(** ** The two branches of [ReorderSDNName] *)

Lemma Reorder_by_type (name tpe : gostring) :
  ReorderSDNName name tpe =
  if isIndividual tpe then ReorderSDNName name "individual" else name.
Proof.
  unfold ReorderSDNName. rewrite !EqualFold_individual.
  change (eqs (lowerASCII "individual") "individual") with true.
  fold (isIndividual tpe). destruct (isIndividual tpe); reflexivity.
Qed.

Lemma Reorder_individual (name : gostring) :
  ReorderSDNName name "individual" =
  match firstShape name with
  | None => name
  | Some v =>
      strings.TrimSpace (dropComma v ++ str " " ++ strings.TrimSuffix name v)
  end.
Proof.
  unfold ReorderSDNName. rewrite EqualFold_individual.
  change (eqs (lowerASCII "individual") "individual") with true. cbn [negb].
  rewrite FindString_surnamePrecedes.
  destruct (firstShape name) as [v|] eqn:E.
  - destruct (firstShape_some _ _ E) as [Hv _].
    apply suffixShape_nonempty in Hv. destruct v; [congruence|].
    cbn [eqs str list_ascii_of_string]. rewrite Sprintf_s_s, TrimPrefix_comma. reflexivity.
  - reflexivity.
Qed.

(** ** [TrimSpace] on ASCII text *)

Lemma at_app1 (a b : gostring) (k : nat) : (k < len a)%nat -> at_ (a ++ b) k = at_ a k.
Proof. intros H. unfold at_. rewrite app_nth1 by exact H. reflexivity. Qed.

Lemma at_snoc (a : gostring) (c : byte) : at_ (a ++ [c]) (len a) = u8 c.
Proof. unfold at_, len. rewrite nth_middle. reflexivity. Qed.

Lemma slice_0_app (a b : gostring) (j : nat) :
  (j <= len a)%nat -> slice (a ++ b) 0 j = slice a 0 j.
Proof.
  intros H. rewrite !slice_0, firstn_app.
  replace (j - List.length a)%nat with O by (unfold len in H; lia).
  cbn [firstn]. apply app_nil_r.
Qed.

Lemma TrimSpace_stop_app (a b : gostring) (stop : nat) :
  (stop <= len a)%nat -> strings.TrimSpace_stop (a ++ b) stop = strings.TrimSpace_stop a stop.
Proof.
  induction stop as [|k IH]; intros H; cbn [strings.TrimSpace_stop].
  - reflexivity.
  - rewrite at_app1 by lia. rewrite slice_0_app by lia. rewrite IH by lia. reflexivity.
Qed.

Lemma trimRightASCII_snoc (a : gostring) (c : byte) :
  trimRightASCII (a ++ [c]) =
  if strings.asciiSpace (u8 c) then trimRightASCII a else a ++ [c].
Proof.
  induction a as [|d a IH]; cbn [app trimRightASCII].
  - destruct (strings.asciiSpace (u8 c)); reflexivity.
  - rewrite IH. destruct (strings.asciiSpace (u8 c)); [reflexivity|].
    destruct (a ++ [c]) eqn:E; [|reflexivity].
    apply app_eq_nil in E. destruct E as [_ E]; discriminate.
Qed.

Lemma isASCII_app (a b : gostring) : isASCII (a ++ b) = isASCII a && isASCII b.
Proof. apply forallb_app. Qed.

Lemma TrimSpace_stop_ASCII (s : gostring) :
  isASCII s = true -> strings.TrimSpace_stop s (len s) = trimRightASCII s.
Proof.
  induction s as [|c a IH] using rev_ind; intros H; [reflexivity|].
  rewrite isASCII_app in H. apply andb_true_iff in H. destruct H as [Ha Hc].
  cbn [isASCII forallb] in Hc. rewrite andb_true_r in Hc. apply N.ltb_lt in Hc.
  replace (len (a ++ [c])) with (S (len a)) by (unfold len; rewrite length_app; cbn; lia).
  cbn [strings.TrimSpace_stop]. rewrite at_snoc, trimRightASCII_snoc.
  unfold utf8.RuneSelf. destruct (N.leb_spec 0x80 (u8 c)); [lia|].
  destruct (strings.asciiSpace (u8 c)).
  - rewrite TrimSpace_stop_app by lia. apply IH, Ha.
  - replace (S (len a)) with (len (a ++ [c])) by (unfold len; rewrite length_app; cbn; lia).
    apply slice_0_len.
Qed.

Lemma trimLeftASCII_isASCII (s : gostring) :
  isASCII s = true -> isASCII (trimLeftASCII s) = true.
Proof.
  induction s as [|c s IH]; [reflexivity|]. intros H.
  cbn [trimLeftASCII]. destruct (strings.asciiSpace (u8 c)); [|assumption].
  apply IH. cbn [isASCII forallb] in H. apply andb_true_iff in H. apply H.
Qed.

(** On ASCII text [TrimSpace] drops the ASCII white space at both ends. *)
Lemma TrimSpace_ASCII (s : gostring) :
  isASCII s = true -> strings.TrimSpace s = trimRightASCII (trimLeftASCII s).
Proof.
  unfold strings.TrimSpace. induction s as [|c s IH]; intros H; [reflexivity|].
  pose proof H as H'. cbn [isASCII forallb] in H. apply andb_true_iff in H.
  destruct H as [Hc Hs]. apply N.ltb_lt in Hc.
  cbn [strings.TrimSpace_start trimLeftASCII]. unfold utf8.RuneSelf.
  destruct (N.leb_spec 0x80 (u8 c)); [lia|].
  destruct (strings.asciiSpace (u8 c)).
  - apply IH, Hs.
  - apply TrimSpace_stop_ASCII, H'.
Qed.

Lemma trimLeftASCII_id (c : byte) (s : gostring) :
  strings.asciiSpace (u8 c) = false -> trimLeftASCII (c :: s) = c :: s.
Proof. intros H. cbn [trimLeftASCII]. rewrite H. reflexivity. Qed.

Lemma trimRightASCII_id (s : gostring) (c : byte) :
  strings.asciiSpace (u8 c) = false -> trimRightASCII (s ++ [c]) = s ++ [c].
Proof. intros H. rewrite trimRightASCII_snoc, H. reflexivity. Qed.

(** A text that neither starts nor ends with ASCII white space, followed by
    one space, is trimmed back to itself. *)
Lemma TrimSpace_add_space (s : gostring) (c d : byte) (m : gostring) :
  s = c :: m -> (exists m', s = m' ++ [d]) ->
  strings.asciiSpace (u8 c) = false -> strings.asciiSpace (u8 d) = false ->
  isASCII s = true ->
  strings.TrimSpace (s ++ " ") = s.
Proof.
  intros Hc [m' Hd] Hsc Hsd Ha.
  rewrite TrimSpace_ASCII by (rewrite isASCII_app, Ha; reflexivity).
  rewrite Hc at 1. cbn [app]. rewrite trimLeftASCII_id by assumption.
  rewrite app_comm_cons, <- Hc.
  cbn [str list_ascii_of_string]. rewrite trimRightASCII_snoc.
  change (strings.asciiSpace (u8 " "%char)) with true. cbv iota.
  rewrite Hd. apply trimRightASCII_id, Hsd.
Qed.

(** ** Characters of the class *)

Lemma surnameClass_unfold (c : byte) :
  surnameClass c =
  ((0x09 <=? u8 c) && (u8 c <=? 0x0A)) || ((0x0C <=? u8 c) && (u8 c <=? 0x0D))
  || (u8 c =? 0x20) || (u8 c =? 0x3F) || isLetter c || (u8 c =? 0x2E).
Proof.
  unfold surnameClass, regexp.inClass, surnameRanges, isLetter.
  cbn [existsb fst snd]. split_cmp; cbn [andb orb]; try reflexivity; lia.
Qed.

Lemma isLetter_class (c : byte) : isLetter c = true -> surnameClass c = true.
Proof.
  intros H. rewrite surnameClass_unfold, H. rewrite !orb_true_r. reflexivity.
Qed.

Lemma class_ascii (c : byte) : surnameClass c = true -> (u8 c <? 0x80) = true.
Proof.
  rewrite surnameClass_unfold. unfold isLetter. intros H. apply N.ltb_lt.
  revert H. split_cmp; cbn [andb orb]; intros; try discriminate; lia.
Qed.

Lemma isLetter_not_space (c : byte) :
  isLetter c = true -> strings.asciiSpace (u8 c) = false.
Proof.
  unfold isLetter, strings.asciiSpace.
  split_cmp; cbn [andb orb]; intros; try discriminate; try reflexivity; lia.
Qed.

Lemma isLetter_not_comma (c : byte) : isLetter c = true -> Ascii.eqb c "," = false.
Proof.
  rewrite ascii_eqb_u8. change (u8 ","%char) with 0x2C. unfold isLetter.
  split_cmp; cbn [andb orb]; intros; try discriminate; try reflexivity; lia.
Qed.

Lemma forallb_impl {A : Type} (f g : A -> bool) (l : list A) :
  (forall x, f x = true -> g x = true) -> forallb f l = true -> forallb g l = true.
Proof.
  intros H. rewrite !forallb_forall. intros Hf x Hx. apply H, Hf, Hx.
Qed.

Lemma firstShape_classRun (s : gostring) : classRun s = true -> firstShape s = Some s.
Proof.
  intros H. destruct s as [|c s]; [discriminate|].
  cbn [firstShape]. unfold suffixShape. rewrite H. reflexivity.
Qed.

Lemma nameChar_class (c : byte) : nameChar c = true -> surnameClass c = true.
Proof.
  rewrite surnameClass_unfold. unfold nameChar, patternSpace.
  destruct (isLetter c); cbn [orb]; [rewrite !orb_true_r; reflexivity|].
  intros H. rewrite orb_false_r. apply orb_true_iff in H. destruct H as [H|H].
  - apply orb_true_iff in H. destruct H as [H|H]; rewrite H; rewrite ?orb_true_r; reflexivity.
  - rewrite H. apply orb_true_r.
Qed.

Lemma class_nameChar (c : byte) :
  surnameClass c = true -> notQuestion c = true -> nameChar c = true.
Proof.
  rewrite surnameClass_unfold. unfold nameChar, patternSpace, notQuestion.
  intros H Hq. apply negb_true_iff in Hq. rewrite Hq in H.
  destruct (isLetter c); [reflexivity|]. cbn [orb]. rewrite ?orb_false_r in H.
  exact H.
Qed.

Lemma suffixShape_nameSuffix (v : gostring) :
  suffixShape v = true <-> nameSuffix surnameClass v.
Proof.
  unfold suffixShape, nameSuffix. rewrite orb_true_iff. split.
  - intros [H|H].
    + apply classRun_spec in H. exists v. split; [left; reflexivity|assumption].
    + destruct v as [|c b]; [discriminate|]. apply andb_true_iff in H.
      destruct H as [Hc Hb]. apply Ascii.eqb_eq in Hc. subst c.
      apply classRun_spec in Hb. exists b. split; [right; reflexivity|assumption].
  - intros (b & [->| ->] & Hb).
    + left. apply classRun_spec, Hb.
    + right. rewrite Ascii.eqb_refl. apply classRun_spec, Hb.
Qed.

Lemma nameSuffix_impl (P Q : byte -> bool) (v : gostring) :
  (forall c, In c v -> P c = true -> Q c = true) -> nameSuffix P v -> nameSuffix Q v.
Proof.
  intros H (b & Hv & Hb & Ha). exists b. split; [assumption|]. split; [assumption|].
  apply forallb_forall. intros c Hc. apply H.
  - destruct Hv as [->| ->]; [assumption|right; assumption].
  - rewrite forallb_forall in Ha. apply Ha, Hc.
Qed.

(** A text with a suffix of the shape ends in a character of the set. *)
Lemma hasNameSuffix_last (P : byte -> bool) (name : gostring) :
  hasNameSuffix P name -> exists m c, name = m ++ [c] /\ P c = true.
Proof.
  intros (pre & v & -> & b & Hv & Hb & Ha).
  destruct (exists_last Hb) as (b' & c & ->).
  rewrite forallb_app in Ha. apply andb_true_iff in Ha. destruct Ha as [_ Ha].
  cbn [forallb] in Ha. rewrite andb_true_r in Ha.
  destruct Hv as [->| ->].
  - exists (pre ++ b'), c. rewrite app_assoc. split; [reflexivity|assumption].
  - exists (pre ++ ","%char :: b'), c. rewrite <- app_assoc. split; [reflexivity|assumption].
Qed.

Lemma firstShape_longest (s v : gostring) :
  firstShape s = Some v ->
  forall pre v', s = pre ++ v' -> (len v < len v')%nat -> suffixShape v' = false.
Proof.
  induction s as [|c s IH]; cbn [firstShape].
  - destruct (suffixShape []); [|discriminate]. intros H; injection H as <-.
    intros pre v' E Hl. symmetry in E. apply app_eq_nil in E. destruct E as [_ ->].
    cbn in Hl; lia.
  - destruct (suffixShape (c :: s)) eqn:E.
    + intros H; injection H as <-. intros pre v' Ev Hl.
      apply (f_equal len) in Ev. unfold len in *. rewrite length_app in Ev. lia.
    + intros H pre v' Ev Hl. destruct pre as [|c' pre].
      * cbn in Ev. subst v'. assumption.
      * injection Ev as _ Ev. apply (IH H pre v' Ev Hl).
Qed.

(** ** Trimming ASCII white space *)

Lemma trimLeftASCII_head (s : gostring) (c : byte) (m : gostring) :
  trimLeftASCII s = c :: m -> strings.asciiSpace (u8 c) = false.
Proof.
  induction s as [|d s IH]; cbn [trimLeftASCII]; [discriminate|].
  destruct (strings.asciiSpace (u8 d)) eqn:E; [assumption|].
  intros H; injection H as <- _. assumption.
Qed.

Lemma trimRightASCII_head (s : gostring) (c : byte) (m : gostring) :
  trimRightASCII s = c :: m -> exists m', s = c :: m'.
Proof.
  destruct s as [|d s]; cbn [trimRightASCII]; [discriminate|].
  destruct (trimRightASCII s); [destruct (strings.asciiSpace (u8 d)); [discriminate|]|];
    intros H; injection H as <- _; eexists; reflexivity.
Qed.

Lemma trimRightASCII_last (s : gostring) :
  trimRightASCII s = [] \/
  exists m d, trimRightASCII s = m ++ [d] /\ strings.asciiSpace (u8 d) = false.
Proof.
  induction s as [|c s IH]; [left; reflexivity|]. cbn [trimRightASCII].
  destruct IH as [->|(m & d & -> & Hd)].
  - destruct (strings.asciiSpace (u8 c)) eqn:E; [left; reflexivity|].
    right. exists [], c. split; [reflexivity|assumption].
  - right. exists (c :: m), d. split; [|assumption].
    destruct (m ++ [d]) eqn:E; [|rewrite <- E; reflexivity].
    apply app_eq_nil in E. destruct E as [_ E]; discriminate.
Qed.

Lemma trimLeftASCII_forallb (P : byte -> bool) (s : gostring) :
  forallb P s = true -> forallb P (trimLeftASCII s) = true.
Proof.
  induction s as [|c s IH]; [reflexivity|]. intros H. cbn [trimLeftASCII].
  destruct (strings.asciiSpace (u8 c)); [|assumption].
  cbn [forallb] in H. apply andb_true_iff in H. apply IH, H.
Qed.

Lemma trimRightASCII_forallb (P : byte -> bool) (s : gostring) :
  forallb P s = true -> forallb P (trimRightASCII s) = true.
Proof.
  induction s as [|c s IH]; [reflexivity|]. intros H. cbn [trimRightASCII].
  cbn [forallb] in H. apply andb_true_iff in H. destruct H as [Hc Hs].
  specialize (IH Hs). destruct (trimRightASCII s).
  - destruct (strings.asciiSpace (u8 c)); [reflexivity|]. cbn [forallb]. rewrite Hc. reflexivity.
  - cbn [forallb] in *. rewrite Hc. exact IH.
Qed.

(** ** Fixed points *)

Lemma class_not_comma (c : byte) : surnameClass c = true -> Ascii.eqb c ","%char = false.
Proof.
  intros H. destruct (Ascii.eqb_spec c ","%char) as [->|]; [|reflexivity].
  rewrite comma_not_class in H. discriminate.
Qed.

(** A trimmed text made of characters of the class is returned as it is. *)
Lemma Reorder_trimmed_class (o : gostring) :
  forallb surnameClass o = true ->
  let r := strings.TrimSpace o in ReorderSDNName r "individual" = r.
Proof.
  intros Ho. cbv zeta.
  assert (Ha : isASCII o = true)
    by (apply (forallb_impl surnameClass); [apply class_ascii|assumption]).
  rewrite TrimSpace_ASCII by assumption.
  set (l := trimLeftASCII o). set (r := trimRightASCII l).
  assert (Hl : forallb surnameClass l = true) by (apply trimLeftASCII_forallb, Ho).
  assert (Hr : forallb surnameClass r = true) by (apply trimRightASCII_forallb, Hl).
  destruct r as [|c m] eqn:Er; [reflexivity|]. rewrite <- Er in *.
  assert (Hrun : classRun r = true) by (apply classRun_spec; split; [congruence|assumption]).
  rewrite Reorder_individual, (firstShape_classRun r Hrun).
  change r with ([] ++ r) at 2. rewrite TrimSuffix_app, app_nil_r.
  assert (Hc : surnameClass c = true).
  { rewrite Er in Hr. cbn [forallb] in Hr. apply andb_true_iff in Hr. apply Hr. }
  assert (Hdrop : dropComma r = r).
  { rewrite Er. cbn [dropComma]. rewrite class_not_comma by assumption. reflexivity. }
  rewrite Hdrop.
  destruct (trimRightASCII_last l) as [E|(m' & d & E & Hd)]; [fold r in E; congruence|].
  fold r in E.
  destruct (trimRightASCII_head l c m Er) as [ml Hml].
  apply (TrimSpace_add_space r c d m Er).
  - exists m'; assumption.
  - apply (trimLeftASCII_head o c ml). exact Hml.
  - assumption.
  - apply (forallb_impl surnameClass); [apply class_ascii|assumption].
Qed.

Lemma commas_app (a b : gostring) : commas (a ++ b) = (commas a + commas b)%nat.
Proof. unfold commas. rewrite filter_app, length_app. reflexivity. Qed.

Lemma no_commas_class (s : gostring) :
  forallb (fun c => surnameClass c || Ascii.eqb ","%char c) s = true ->
  commas s = 0%nat -> forallb surnameClass s = true.
Proof.
  induction s as [|c s IH]; [reflexivity|]. cbn [forallb]. unfold commas. cbn [filter].
  intros H Hc. apply andb_true_iff in H. destruct H as [H1 H2].
  destruct (Ascii.eqb ","%char c); [discriminate|]. rewrite orb_false_r in H1.
  rewrite H1. apply IH; assumption.
Qed.

(** What is handed to [TrimSpace] when a plain name is rewritten holds
    characters of the class only. *)
Lemma rewrite_plainName (pre v : gostring) :
  plainName (pre ++ v) = true -> firstShape (pre ++ v) = Some v ->
  forallb surnameClass (dropComma v ++ " " ++ pre) = true.
Proof.
  intros Hp Hf. unfold plainName in Hp. apply andb_true_iff in Hp.
  destruct Hp as [Hall Hcom]. apply Nat.leb_le in Hcom.
  destruct (firstShape_some _ _ Hf) as [Hs _].
  rewrite forallb_app in Hall. apply andb_true_iff in Hall. destruct Hall as [Hpre Hv].
  rewrite commas_app in Hcom.
  unfold suffixShape in Hs. apply orb_true_iff in Hs. destruct Hs as [Hs|Hs].
  - (* v is a run of the class: nothing stands before it *)
    apply classRun_spec in Hs. destruct Hs as [Hne Hcls].
    assert (Hpre0 : pre = []).
    { destruct pre as [|x0 p0] using rev_ind; [reflexivity|]. exfalso. clear IHp0.
      rewrite <- app_assoc in Hf. cbn [app] in Hf.
      pose proof (firstShape_longest _ _ Hf p0 (x0 :: v) eq_refl) as Hlong.
      assert (Hlen : (len v < len (x0 :: v))%nat) by (unfold len; cbn [List.length]; lia).
      specialize (Hlong Hlen).
      rewrite forallb_app in Hpre. apply andb_true_iff in Hpre. destruct Hpre as [_ Hx].
      cbn [forallb] in Hx. rewrite andb_true_r in Hx. apply orb_true_iff in Hx.
      unfold suffixShape in Hlong. apply orb_false_iff in Hlong. destruct Hlong as [L1 L2].
      destruct Hx as [Hx|Hx].
      - cbn [classRun forallb] in L1. rewrite Hx, Hcls in L1. discriminate.
      - rewrite Ascii.eqb_sym, Hx in L2. cbn [andb] in L2.
        assert (classRun v = true) by (apply classRun_spec; split; assumption). congruence. }
    subst pre. rewrite app_nil_r.
    destruct v as [|c b]; [congruence|]. cbn [dropComma].
    assert (Hc : surnameClass c = true).
    { cbn [forallb] in Hcls. apply andb_true_iff in Hcls. apply Hcls. }
    rewrite class_not_comma by assumption. rewrite forallb_app, Hcls. reflexivity.
  - (* v is a comma and a run of the class: the comma is the only one *)
    destruct v as [|c b]; [discriminate|]. apply andb_true_iff in Hs. destruct Hs as [Hc Hb].
    cbn [dropComma]. rewrite Hc. apply classRun_spec in Hb. destruct Hb as [_ Hb].
    apply Ascii.eqb_eq in Hc. subst c.
    assert (Hpc : commas pre = 0%nat).
    { unfold commas in Hcom at 2. cbn [filter] in Hcom. rewrite Ascii.eqb_refl in Hcom.
      cbn [List.length] in Hcom. lia. }
    rewrite !forallb_app, Hb, (no_commas_class pre Hpre Hpc). reflexivity.
Qed.

(** ** More on UTF-8 decoding *)

(** Comparisons among the hypotheses, as propositions. *)
Ltac cmp_hyps :=
  repeat match goal with
         | H : (_ || _)%bool = false |- _ => apply orb_false_iff in H; destruct H as [? ?]
         | H : (_ && _)%bool = true |- _ => apply andb_true_iff in H; destruct H as [? ?]
         | H : negb _ = true |- _ => apply negb_true_iff in H
         | H : negb _ = false |- _ => apply negb_false_iff in H
         | H : (_ <? _) = true |- _ => apply N.ltb_lt in H
         | H : (_ <? _) = false |- _ => apply N.ltb_ge in H
         | H : (_ <=? _) = true |- _ => apply N.leb_le in H
         | H : (_ <=? _) = false |- _ => apply N.leb_gt in H
         | H : (_ =? _) = true |- _ => apply N.eqb_eq in H
         | H : (_ =? _) = false |- _ => apply N.eqb_neq in H
         | H : (_ <? _)%nat = true |- _ => apply Nat.ltb_lt in H
         | H : (_ <? _)%nat = false |- _ => apply Nat.ltb_ge in H
         | H : (_ <=? _)%nat = true |- _ => apply Nat.leb_le in H
         | H : (_ <=? _)%nat = false |- _ => apply Nat.leb_gt in H
         | H : (_ =? _)%nat = true |- _ => apply Nat.eqb_eq in H
         | H : (_ =? _)%nat = false |- _ => apply Nat.eqb_neq in H
         end.

Ltac first_codes :=
  cbv [utf8.as_ utf8.xx utf8.s1 utf8.s2 utf8.s3 utf8.s4 utf8.s5 utf8.s6 utf8.s7];
  repeat match goal with
         | |- context [N.to_nat ?x] =>
             let v := eval vm_compute in (N.to_nat x) in change (N.to_nat x) with v
         | |- context [utf8.acceptRanges ?x] =>
             let v := eval vm_compute in (utf8.acceptRanges x) in
             change (utf8.acceptRanges x) with v
         | |- context [N.leb 240 ?x] =>
             let v := eval vm_compute in (N.leb 240 x) in change (N.leb 240 x) with v
         | |- context [N.odd ?x] =>
             let v := eval vm_compute in (N.odd x) in change (N.odd x) with v
         end;
  cbn [fst snd Nat.ltb Nat.leb];
  unfold utf8.locb, utf8.hicb in *.

Lemma RuneStart_u8 (c : byte) :
  utf8.RuneStart (u8 c) = negb ((0x80 <=? u8 c) && (u8 c <=? 0xBF)).
Proof. destruct c as [[] [] [] [] [] [] [] []]; reflexivity. Qed.

(** The width of the first rune. *)
Lemma Decode_width (c : byte) (s : gostring) :
  (1 <= snd (utf8.DecodeRuneInString (c :: s)) <= len (c :: s))%nat.
Proof.
  unfold utf8.DecodeRuneInString. change (at_ (c :: s) 0) with (u8 c).
  generalize (at_ (c :: s) 1) (at_ (c :: s) 2) (at_ (c :: s) 3). intros b1 b2 b3.
  assert (Hn : (1 <= len (c :: s))%nat) by (unfold len; cbn [List.length]; lia).
  revert Hn. generalize (len (c :: s)). intros n Hn.
  pose proof (u8_bound c) as Hc. revert Hc. generalize (u8 c) as b0. intros b0 Hc.
  destruct (Nat.ltb_spec n 1); [lia|].
  split_first b0; try lia; first_codes; cbn [snd]; try lia.
  all: split_ifs; cbn [snd]; cmp_hyps; cbn in *; lia.
Qed.

(** A byte that does not start a rune decodes to the error rune. *)
Lemma Decode_continuation (c : byte) (s : gostring) :
  utf8.RuneStart (u8 c) = false ->
  utf8.DecodeRuneInString (c :: s) = (utf8.RuneError, 1%nat).
Proof.
  rewrite RuneStart_u8. intros H. cmp_hyps.
  unfold utf8.DecodeRuneInString. change (at_ (c :: s) 0) with (u8 c).
  cbn [len List.length Nat.ltb Nat.leb]. revert H H0. generalize (u8 c) as b0. intros b0 H H0.
  split_first b0; try lia; first_codes; reflexivity.
Qed.

(** What follows a text does not change its first rune, when what follows
    begins a rune. *)
Lemma Decode_app (a b : gostring) :
  a <> [] -> boundary b = true ->
  utf8.DecodeRuneInString (a ++ b) = utf8.DecodeRuneInString a.
Proof.
  intros Ha Hb. destruct b as [|d b]; [rewrite app_nil_r; reflexivity|].
  cbn [boundary] in Hb. rewrite RuneStart_u8 in Hb.
  assert (Hd' : u8 d < 0x80 \/ 0xBF < u8 d).
  { apply negb_true_iff, andb_false_iff in Hb. destruct Hb as [Hb|Hb]; cmp_hyps; lia. }
  clear Hb.
  destruct a as [|c0 [|c1 [|c2 [|c3 a]]]]; [congruence| | | |].
  all: unfold utf8.DecodeRuneInString, at_, len; cbn [app List.length nth];
       change (u8 zero) with 0.
  all: repeat match goal with
              | |- context [u8 ?x] =>
                  is_var x; pose proof (u8_bound x); generalize dependent (u8 x); intros
              end.
  all: repeat match goal with
              | |- context [List.length ?x] => generalize (List.length x); intros
              end.
  all: repeat match goal with
              | |- context [u8 (nth ?i ?l ?z)] => generalize (u8 (nth i l z)); intros
              end.
  all: cbn [Nat.ltb Nat.leb].
  all: match goal with
       | |- context [utf8.first ?b0] => split_first b0
       end; try lia; first_codes; try reflexivity.
  all: cbn [Nat.ltb Nat.leb Nat.add].
  all: split_ifs; cmp_hyps; try reflexivity; try (exfalso; lia).
Qed.

(** ** The runes of a text *)

Lemma len_skipn (n : nat) (s : gostring) : len (skipn n s) = (len s - n)%nat.
Proof. apply length_skipn. Qed.

(** Enough fuel: the loop over the runes of [s] does not depend on the
    number of rounds it is allowed, from [len(s)] on. *)
Lemma runes_loop_fuel (fuel1 fuel2 : nat) (s : gostring) :
  (len s <= fuel1)%nat -> (len s <= fuel2)%nat ->
  utf8.runes_loop fuel1 s = utf8.runes_loop fuel2 s.
Proof.
  revert fuel2 s; induction fuel1 as [|n IH]; intros fuel2 s H1 H2.
  - destruct s; [|unfold len in H1; cbn in H1; lia]. destruct fuel2; reflexivity.
  - destruct s as [|c s]; [destruct fuel2; reflexivity|].
    destruct fuel2 as [|m]; [unfold len in H2; cbn in H2; lia|].
    cbn [utf8.runes_loop].
    pose proof (Decode_width c s) as Hw.
    destruct (utf8.DecodeRuneInString (c :: s)) as [r size]. cbn [snd] in Hw.
    f_equal. apply IH; rewrite len_skipn; unfold len in *; cbn [List.length] in *; lia.
Qed.

Lemma runes_cons (c : byte) (s : gostring) :
  utf8.runes (c :: s) =
  fst (utf8.DecodeRuneInString (c :: s))
  :: utf8.runes (skipn (snd (utf8.DecodeRuneInString (c :: s))) (c :: s)).
Proof.
  unfold utf8.runes at 1. change (len (c :: s)) with (S (len s)).
  cbn [utf8.runes_loop].
  pose proof (Decode_width c s) as Hw.
  destruct (utf8.DecodeRuneInString (c :: s)) as [r size]. cbn [fst snd] in *.
  f_equal. apply runes_loop_fuel; rewrite ?len_skipn; unfold len in *;
    cbn [List.length] in *; lia.
Qed.

Lemma runes_nil : utf8.runes [] = [].
Proof. reflexivity. Qed.

(** The runes of a text followed by a text that begins a rune. *)
Lemma runes_app (a b : gostring) :
  boundary b = true -> utf8.runes (a ++ b) = utf8.runes a ++ utf8.runes b.
Proof.
  intros Hb. remember (len a) as n eqn:Hn.
  revert a Hn. induction n as [n IH] using lt_wf_ind. intros a Hn.
  destruct a as [|c a]; [reflexivity|].
  change ((c :: a) ++ b) with (c :: (a ++ b)).
  rewrite (runes_cons c (a ++ b)), (runes_cons c a).
  change (c :: (a ++ b)) with ((c :: a) ++ b).
  rewrite (Decode_app (c :: a) b) by (assumption || discriminate).
  pose proof (Decode_width c a) as Hw.
  destruct (utf8.DecodeRuneInString (c :: a)) as [r size]. cbn [fst snd] in *.
  rewrite skipn_app.
  replace (size - List.length (c :: a))%nat with O by (unfold len in Hw; lia).
  cbn [skipn app]. cbn [app]. f_equal.
  apply (IH (len (skipn size (c :: a)))); [|reflexivity].
  rewrite len_skipn. subst n. unfold len in *. lia.
Qed.

Lemma runes_ASCII_cons (c : byte) (s : gostring) :
  u8 c < 0x80 -> utf8.runes (c :: s) = u8 c :: utf8.runes s.
Proof. intros H. rewrite runes_cons, Decode_ascii by assumption. reflexivity. Qed.

Lemma IsSpace_ASCII (n : N) : n < 0x80 -> unicode.IsSpace n = strings.asciiSpace n.
Proof.
  intros H. unfold unicode.IsSpace, strings.asciiSpace, unicode.MaxLatin1.
  split_cmp; cbn [orb]; reflexivity.
Qed.

Lemma RuneError_not_space : unicode.IsSpace utf8.RuneError = false.
Proof. reflexivity. Qed.

Lemma boundary_ASCII (c : byte) (s : gostring) : u8 c < 0x80 -> boundary (c :: s) = true.
Proof.
  intros H. cbn [boundary]. rewrite RuneStart_u8.
  destruct (N.leb_spec 0x80 (u8 c)); [lia|reflexivity].
Qed.

(** A text whose first rune is white space begins a rune. *)
Lemma space_boundary (s : gostring) :
  unicode.IsSpace (fst (utf8.DecodeRuneInString s)) = true -> boundary s = true.
Proof.
  destruct s as [|c s]; [reflexivity|]. cbn [boundary]. intros H.
  destruct (utf8.RuneStart (u8 c)) eqn:E; [reflexivity|].
  rewrite (Decode_continuation c s E) in H. discriminate.
Qed.

(** ** The last rune of a text *)

Lemma scanBack_le (s : gostring) (lim p : nat) : (utf8.scanBack s lim p <= p)%nat.
Proof.
  induction p as [|q IH]; cbn [utf8.scanBack]; [lia|].
  destruct (lim <? S q)%nat; [|lia]. destruct (utf8.RuneStart (at_ s q)); lia.
Qed.

Lemma skipn_last_byte (m : gostring) (c : byte) :
  skipn (len (m ++ [c]) - 1) (m ++ [c]) = [c].
Proof.
  unfold len. rewrite length_app. cbn [List.length].
  replace (List.length m + 1 - 1)%nat with (List.length m + 0)%nat by lia.
  rewrite skipn_app, skipn_all2 by lia.
  replace (List.length m + 0 - List.length m)%nat with O by lia. reflexivity.
Qed.

(** The last rune is the error rune of width one, or the first rune of the
    last [size] bytes. *)
Lemma DecodeLast_spec (s : gostring) :
  s <> [] ->
  forall r size, utf8.DecodeLastRuneInString s = (r, size) ->
  (1 <= size <= len s)%nat /\
  ((r, size) = (utf8.RuneError, 1%nat) \/
   utf8.DecodeRuneInString (skipn (len s - size) s) = (r, size)).
Proof.
  intros Hs r size. unfold utf8.DecodeLastRuneInString.
  assert (Hl : (0 < len s)%nat) by (destruct s; [congruence|unfold len; cbn; lia]).
  destruct (Nat.eqb_spec (len s) 0); [lia|].
  destruct (exists_last Hs) as (m & c & Es).
  destruct (N.ltb_spec (at_ s (len s - 1)) utf8.RuneSelf) as [Hlt|Hge].
  - intros E; injection E as <- <-. split; [lia|]. right.
    subst s. rewrite skipn_last_byte.
    replace (len (m ++ [c]) - 1)%nat with (len m) in * by (unfold len; rewrite length_app; cbn; lia).
    rewrite at_snoc in *. apply Decode_ascii. exact Hlt.
  - set (start := pred (utf8.scanBack s (len s - utf8.UTFMax) (len s - 1))).
    assert (Hstart : (start < len s)%nat).
    { pose proof (scanBack_le s (len s - utf8.UTFMax) (len s - 1)). unfold start. lia. }
    rewrite slice_to_len.
    destruct (skipn start s) as [|c0 t] eqn:Esk.
    { apply (f_equal len) in Esk. rewrite len_skipn in Esk. cbn in Esk. lia. }
    pose proof (Decode_width c0 t) as Hw.
    destruct (utf8.DecodeRuneInString (c0 :: t)) as [r0 size0] eqn:Ed. cbn [snd] in Hw.
    destruct (Nat.eqb_spec (start + size0) (len s)) as [Eq|Ne]; cbn [negb].
    + intros E; injection E as <- <-. split; [lia|]. right.
      replace (len s - size0)%nat with start by lia. rewrite Esk. exact Ed.
    + intros E; injection E as <- <-. split; [lia|]. left; reflexivity.
Qed.

Lemma DecodeLast_nil : utf8.DecodeLastRuneInString [] = (utf8.RuneError, 0%nat).
Proof. reflexivity. Qed.

Lemma DecodeLast_ASCII (m : gostring) (c : byte) :
  u8 c < 0x80 -> utf8.DecodeLastRuneInString (m ++ [c]) = (u8 c, 1%nat).
Proof.
  intros H. unfold utf8.DecodeLastRuneInString.
  replace (len (m ++ [c])) with (S (len m)) by (unfold len; rewrite length_app; cbn; lia).
  cbn [Nat.eqb]. replace (S (len m) - 1)%nat with (len m) by lia.
  rewrite at_snoc. unfold utf8.RuneSelf.
  destruct (N.ltb_spec (u8 c) 0x80); [reflexivity|lia].
Qed.

(** ** Lists of bytes *)

Lemma skipn_split (s : gostring) (i e : nat) :
  (i <= e <= len s)%nat -> skipn i s = skipn i (firstn e s) ++ skipn e s.
Proof.
  intros H. rewrite <- (firstn_skipn e s) at 1. rewrite skipn_app.
  rewrite length_firstn. replace (i - Nat.min e (List.length s))%nat with O
    by (unfold len in H; lia).
  reflexivity.
Qed.

Lemma at_skipn (s : gostring) (i : nat) : at_ s i = at_ (skipn i s) 0.
Proof. unfold at_. rewrite nth_skipn, Nat.add_0_r. reflexivity. Qed.

Lemma len_firstn (s : gostring) (e : nat) : (e <= len s)%nat -> len (firstn e s) = e.
Proof. intros H. unfold len in *. rewrite length_firstn. lia. Qed.

Lemma boundary_app (a b : gostring) : a <> [] -> boundary (a ++ b) = boundary a.
Proof. destruct a; [congruence|reflexivity]. Qed.

Lemma spaces_app (a b : gostring) :
  boundary b = true -> spaces (a ++ b) = spaces a && spaces b.
Proof. intros H. unfold spaces. rewrite runes_app by assumption. apply forallb_app. Qed.

Lemma content_app (a b : gostring) :
  boundary b = true -> content (a ++ b) = content a ++ content b.
Proof. intros H. unfold content. rewrite runes_app by assumption. apply filter_app. Qed.

Lemma content_spaces (s : gostring) : spaces s = true -> content s = [].
Proof.
  unfold spaces, content. induction (utf8.runes s) as [|r l IH]; [reflexivity|].
  cbn [forallb filter]. intros H. apply andb_true_iff in H. destruct H as [Hr Hl].
  rewrite Hr. cbn [negb]. apply IH, Hl.
Qed.

(** A text that is exactly one rune. *)
Lemma runes_single (w : gostring) (r : rune) :
  w <> [] -> utf8.DecodeRuneInString w = (r, len w) -> utf8.runes w = [r].
Proof.
  intros Hw Hd. destruct w as [|c w]; [congruence|].
  rewrite runes_cons, Hd. cbn [fst snd]. unfold len. rewrite skipn_all. reflexivity.
Qed.

(** ** [TrimRightFunc] and [TrimLeftFunc] with [unicode.IsSpace] *)

(** The backward loop stops at the end [e'] of the last rune that is not
    white space; what follows [e'] is white space only. *)
Lemma lastIndexFunc_loop_spec (s : gostring) (fuel e : nat) :
  (e <= fuel)%nat -> (e <= len s)%nat ->
  boundary (skipn e s) = true -> spaces (skipn e s) = true ->
  match strings.lastIndexFunc_loop fuel s unicode.IsSpace false e with
  | None => boundary s = true /\ spaces s = true
  | Some i =>
      exists e' r size,
        (0 < e' <= len s)%nat /\
        utf8.DecodeLastRuneInString (firstn e' s) = (r, size) /\
        i = (e' - size)%nat /\ unicode.IsSpace r = false /\
        boundary (skipn e' s) = true /\ spaces (skipn e' s) = true
  end.
Proof.
  revert e; induction fuel as [|n IH]; intros e Hf He Hb Hsp.
  - assert (e = O) by lia. subst e. cbn [strings.lastIndexFunc_loop skipn] in *. auto.
  - cbn [strings.lastIndexFunc_loop].
    destruct (Nat.ltb_spec 0 e) as [Hpos|Hz].
    2:{ assert (e = O) by lia. subst e. cbn [skipn] in *. auto. }
    rewrite slice_0.
    destruct (utf8.DecodeLastRuneInString (firstn e s)) as [r size] eqn:Ed.
    destruct (unicode.IsSpace r) eqn:Er; cbn [Bool.eqb].
    + assert (Hne : firstn e s <> []).
      { intros E. apply (f_equal len) in E. rewrite len_firstn in E by assumption.
        cbn in E. lia. }
      destruct (DecodeLast_spec _ Hne r size Ed) as [Hsz [Herr|Hdec]].
      { injection Herr as -> _. rewrite RuneError_not_space in Er. discriminate. }
      rewrite len_firstn in * by assumption.
      set (w := skipn (e - size) (firstn e s)) in *.
      assert (Hw : len w = size) by (unfold w; rewrite len_skipn, len_firstn; lia).
      assert (Hwne : w <> []) by (intros E; rewrite E in Hw; cbn in Hw; lia).
      assert (Hsplit : skipn (e - size) s = w ++ skipn e s)
        by (apply skipn_split; lia).
      apply IH; try lia.
      * rewrite Hsplit, boundary_app by assumption.
        apply space_boundary. rewrite Hdec. exact Er.
      * rewrite Hsplit, spaces_app by assumption. rewrite Hsp, andb_true_r.
        unfold spaces. rewrite (runes_single w r); [|assumption|rewrite Hw; exact Hdec].
        cbn [forallb]. rewrite Er. reflexivity.
    + exists e, r, size. repeat split; try assumption; lia.
Qed.

(** [TrimRightFunc] cuts the text after its last rune that is not white
    space. *)
Lemma TrimRightFunc_spec (s : gostring) :
  exists e,
    (e <= len s)%nat /\
    strings.TrimRightFunc s unicode.IsSpace = firstn e s /\
    endsWithSpace (firstn e s) = false /\
    boundary (skipn e s) = true /\ spaces (skipn e s) = true.
Proof.
  unfold strings.TrimRightFunc, strings.lastIndexFunc.
  pose proof (lastIndexFunc_loop_spec s (len s) (len s)) as H.
  unfold len in H at 3 4. rewrite skipn_all in H.
  specialize (H (Nat.le_refl _) (Nat.le_refl _) eq_refl eq_refl).
  destruct (strings.lastIndexFunc_loop (len s) s unicode.IsSpace false (len s)) as [i|].
  - destruct H as (e & r & size & He & Hd & -> & Hr & Hb & Hsp).
    exists e. split; [lia|].
    assert (Hne : firstn e s <> []).
    { intros E. apply (f_equal len) in E. rewrite len_firstn in E by lia. cbn in E. lia. }
    destruct (DecodeLast_spec _ Hne r size Hd) as [Hsz Hcase].
    rewrite len_firstn in * by lia.
    set (w := skipn (e - size) (firstn e s)) in *.
    assert (Hw : len w = size) by (unfold w; rewrite len_skipn, len_firstn; lia).
    assert (Hsplit : skipn (e - size) s = w ++ skipn e s) by (apply skipn_split; lia).
    destruct w as [|x w'] eqn:Ew; [cbn in Hw; lia|].
    assert (Hat : at_ s (e - size) = u8 x) by (rewrite at_skipn, Hsplit; reflexivity).
    assert (Hends : endsWithSpace (firstn e s) = false)
      by (unfold endsWithSpace; rewrite Hd; exact Hr).
    assert (Hwid : snd (utf8.DecodeRuneInString (skipn (e - size) s)) = size).
    { rewrite Hsplit, Decode_app by (assumption || discriminate).
      destruct Hcase as [Herr|Hdec]; [|rewrite Hdec; reflexivity].
      injection Herr as _ ->. pose proof (Decode_width x w') as Hwd.
      unfold len in Hw, Hwd. lia. }
    rewrite Hat, slice_to_len, !slice_0.
    destruct (N.leb_spec utf8.RuneSelf (u8 x)) as [Hge|Hlt].
    + destruct (utf8.DecodeRuneInString (skipn (e - size) s)) as [r' wid].
      cbn [snd] in Hwid. subst wid.
      replace (e - size + size)%nat with e by lia. rewrite ?slice_0. auto.
    + assert (size = 1%nat).
      { rewrite Hsplit, Decode_app, Decode_ascii in Hwid
          by (assumption || discriminate). cbn [snd] in Hwid. lia. }
      replace (e - size + 1)%nat with e by lia. rewrite ?slice_0. auto.
  - destruct H as [Hb Hsp]. exists O. rewrite slice_0. cbn [firstn skipn].
    repeat split; try assumption; lia.
Qed.

(** What [TrimRightFunc] keeps and what it preserves. *)
Lemma TrimRightFunc_props (s : gostring) :
  let t := strings.TrimRightFunc s unicode.IsSpace in
  endsWithSpace t = false /\ content t = content s
  /\ (startsWithSpace s = false -> startsWithSpace t = false).
Proof.
  cbv zeta. destruct (TrimRightFunc_spec s) as (e & He & -> & Hends & Hb & Hsp).
  split; [assumption|]. split.
  - rewrite <- (firstn_skipn e s) at 2. rewrite content_app by assumption.
    rewrite (content_spaces _ Hsp), app_nil_r. reflexivity.
  - unfold startsWithSpace. intros Hst.
    destruct (firstn e s) as [|c t] eqn:E; [reflexivity|].
    rewrite <- (firstn_skipn e s), E, Decode_app in Hst by (assumption || discriminate).
    exact Hst.
Qed.

(** The forward loop stops at the first rune that is not white space. *)
Lemma indexFunc_loop_spec (fuel i : nat) (s : gostring) :
  (len s <= fuel)%nat ->
  match strings.indexFunc_loop fuel unicode.IsSpace false i s with
  | None => spaces s = true
  | Some j =>
      exists k, j = (i + k)%nat /\ (k <= len s)%nat /\
        startsWithSpace (skipn k s) = false /\ content (skipn k s) = content s
  end.
Proof.
  revert i s; induction fuel as [|n IH]; intros i s Hf.
  - destruct s; [reflexivity|unfold len in Hf; cbn in Hf; lia].
  - destruct s as [|c s]; [reflexivity|]. cbn [strings.indexFunc_loop].
    pose proof (Decode_width c s) as Hw. pose proof (runes_cons c s) as Hr.
    destruct (utf8.DecodeRuneInString (c :: s)) as [r size] eqn:Ed. cbn [fst snd] in *.
    destruct (unicode.IsSpace r) eqn:Er; cbn [Bool.eqb].
    + assert (Hlen : (len (skipn size (c :: s)) <= n)%nat)
        by (rewrite len_skipn; unfold len in *; cbn [List.length] in *; lia).
      specialize (IH (i + size)%nat (skipn size (c :: s)) Hlen).
      destruct (strings.indexFunc_loop n unicode.IsSpace false (i + size)
                  (skipn size (c :: s))) as [j|].
      * destruct IH as (k & -> & Hk & Hst & Hc).
        exists (size + k)%nat. rewrite len_skipn in Hk.
        rewrite skipn_skipn in Hst, Hc.
        replace (k + size)%nat with (size + k)%nat in Hst, Hc by lia.
        repeat split; try lia; try assumption.
        rewrite Hc. unfold content. rewrite Hr. cbn [filter]. rewrite Er. reflexivity.
      * unfold spaces in *. rewrite Hr. cbn [forallb]. rewrite Er, IH. reflexivity.
    + exists O. cbn [skipn]. repeat split; try lia.
      unfold startsWithSpace. rewrite Ed. exact Er.
Qed.

Lemma TrimLeftFunc_props (s : gostring) :
  let t := strings.TrimLeftFunc s unicode.IsSpace in
  startsWithSpace t = false /\ content t = content s.
Proof.
  cbv zeta. unfold strings.TrimLeftFunc, strings.indexFunc.
  pose proof (indexFunc_loop_spec (len s) 0 s (Nat.le_refl _)) as H.
  destruct (strings.indexFunc_loop (len s) unicode.IsSpace false 0 s) as [j|].
  - destruct H as (k & -> & Hk & Hst & Hc). cbn [Nat.add]. rewrite slice_to_len. auto.
  - split; [reflexivity|]. rewrite (content_spaces s H). reflexivity.
Qed.

Lemma TrimFunc_props (s : gostring) :
  let t := strings.TrimFunc s unicode.IsSpace in
  startsWithSpace t = false /\ endsWithSpace t = false /\ content t = content s.
Proof.
  cbv zeta. unfold strings.TrimFunc.
  destruct (TrimLeftFunc_props s) as [Hst Hc].
  destruct (TrimRightFunc_props (strings.TrimLeftFunc s unicode.IsSpace)) as (He & Hc' & Hs').
  split; [apply Hs', Hst|]. split; [assumption|]. rewrite Hc'. exact Hc.
Qed.

(** ** [TrimSpace] in general *)

Lemma skipn_cons_nth (t : gostring) (k : nat) :
  (k < len t)%nat -> skipn k t = nth k t zero :: skipn (S k) t.
Proof.
  revert k; induction t as [|c t IH]; intros k H; [unfold len in H; cbn in H; lia|].
  destruct k as [|k]; [reflexivity|]. cbn [skipn nth]. apply IH.
  unfold len in *; cbn [List.length] in H; lia.
Qed.

Lemma firstn_snoc_nth (t : gostring) (k : nat) :
  (k < len t)%nat -> firstn (S k) t = firstn k t ++ [nth k t zero].
Proof.
  revert k; induction t as [|c t IH]; intros k H; [unfold len in H; cbn in H; lia|].
  destruct k as [|k]; [reflexivity|]. cbn [firstn nth app]. f_equal. apply IH.
  unfold len in *; cbn [List.length] in H; lia.
Qed.

Lemma TrimSpace_stop_props (t : gostring) (stop : nat) :
  (stop <= len t)%nat ->
  boundary (skipn stop t) = true -> spaces (skipn stop t) = true ->
  let r := strings.TrimSpace_stop t stop in
  endsWithSpace r = false /\ content r = content t
  /\ (startsWithSpace t = false -> startsWithSpace r = false).
Proof.
  cbv zeta. induction stop as [|k IH]; intros Hl Hb Hsp.
  - cbn [strings.TrimSpace_stop skipn] in *. rewrite slice_0. cbn [firstn].
    split; [reflexivity|]. split; [|reflexivity].
    rewrite (content_spaces t Hsp). reflexivity.
  - cbn [strings.TrimSpace_stop]. rewrite slice_0.
    set (u := firstn (S k) t).
    assert (Hu : u <> []).
    { intros E. apply (f_equal len) in E. unfold u in E. rewrite len_firstn in E by lia.
      cbn in E. lia. }
    assert (Hcu : content u = content t).
    { rewrite <- (firstn_skipn (S k) t) at 1. rewrite content_app by assumption.
      rewrite (content_spaces _ Hsp), app_nil_r. reflexivity. }
    assert (Hsu : startsWithSpace t = false -> startsWithSpace u = false).
    { unfold startsWithSpace. rewrite <- (firstn_skipn (S k) t) at 1.
      fold u. rewrite Decode_app by assumption. auto. }
    unfold at_.
    destruct (N.leb_spec utf8.RuneSelf (u8 (nth k t zero))) as [Hge|Hlt].
    + destruct (TrimRightFunc_props u) as (He & Hc & Hs).
      split; [assumption|]. split; [congruence|auto].
    + unfold utf8.RuneSelf in Hlt.
      destruct (strings.asciiSpace (u8 (nth k t zero))) eqn:Esp.
      * apply IH; [lia| |].
        -- rewrite skipn_cons_nth by lia. apply boundary_ASCII, Hlt.
        -- rewrite skipn_cons_nth by lia. unfold spaces in *.
           rewrite runes_ASCII_cons by assumption. cbn [forallb].
           rewrite IsSpace_ASCII, Esp by assumption. exact Hsp.
      * split; [|split; assumption].
        unfold endsWithSpace, u. rewrite firstn_snoc_nth by lia.
        rewrite DecodeLast_ASCII by assumption. cbn [fst].
        rewrite IsSpace_ASCII by assumption. exact Esp.
Qed.

(** [TrimSpace] returns a text that neither begins nor ends with a rune of
    white space, and whose other runes are those of its argument. *)
Lemma TrimSpace_props (s : gostring) :
  let r := strings.TrimSpace s in
  startsWithSpace r = false /\ endsWithSpace r = false /\ content r = content s.
Proof.
  cbv zeta. unfold strings.TrimSpace. induction s as [|c s IH].
  - cbn. auto.
  - cbn [strings.TrimSpace_start].
    destruct (N.leb_spec utf8.RuneSelf (u8 c)) as [Hge|Hlt].
    + apply TrimFunc_props.
    + unfold utf8.RuneSelf in Hlt. destruct (strings.asciiSpace (u8 c)) eqn:Esp.
      * destruct IH as (H1 & H2 & H3). split; [assumption|]. split; [assumption|].
        rewrite H3. unfold content. rewrite runes_ASCII_cons by assumption.
        cbn [filter]. rewrite IsSpace_ASCII, Esp by assumption. reflexivity.
      * assert (Hst : startsWithSpace (c :: s) = false).
        { unfold startsWithSpace. rewrite Decode_ascii by assumption. cbn [fst].
          rewrite IsSpace_ASCII by assumption. exact Esp. }
        destruct (TrimSpace_stop_props (c :: s) (len (c :: s))) as (H1 & H2 & H3).
        -- lia.
        -- unfold len. rewrite skipn_all. reflexivity.
        -- unfold len. rewrite skipn_all. reflexivity.
        -- split; [apply H3, Hst|]. split; assumption.
Qed.

(** ** Enough fuel for the loops of [strings] *)

Lemma indexFunc_loop_fuel (f : rune -> bool) (truth : bool) (fuel1 fuel2 i : nat)
    (s : gostring) :
  (len s <= fuel1)%nat -> (len s <= fuel2)%nat ->
  strings.indexFunc_loop fuel1 f truth i s = strings.indexFunc_loop fuel2 f truth i s.
Proof.
  revert fuel2 i s; induction fuel1 as [|n IH]; intros fuel2 i s H1 H2.
  - destruct s; [|unfold len in H1; cbn in H1; lia]. destruct fuel2; reflexivity.
  - destruct s as [|c s]; [destruct fuel2; reflexivity|].
    destruct fuel2 as [|m]; [unfold len in H2; cbn in H2; lia|].
    cbn [strings.indexFunc_loop].
    pose proof (Decode_width c s) as Hw.
    destruct (utf8.DecodeRuneInString (c :: s)) as [r size]. cbn [snd] in Hw.
    destruct (Bool.eqb (f r) truth); [reflexivity|].
    apply IH; rewrite len_skipn; unfold len in *; cbn [List.length] in *; lia.
Qed.

Lemma lastIndexFunc_loop_fuel (f : rune -> bool) (truth : bool) (s : gostring)
    (fuel1 fuel2 e : nat) :
  (e <= len s)%nat -> (e <= fuel1)%nat -> (e <= fuel2)%nat ->
  strings.lastIndexFunc_loop fuel1 s f truth e =
  strings.lastIndexFunc_loop fuel2 s f truth e.
Proof.
  revert fuel2 e; induction fuel1 as [|n IH]; intros fuel2 e He H1 H2.
  - assert (e = O) by lia. subst e. destruct fuel2; reflexivity.
  - destruct fuel2 as [|m].
    + assert (e = O) by lia. subst e. reflexivity.
    + cbn [strings.lastIndexFunc_loop].
      destruct (Nat.ltb_spec 0 e) as [Hpos|]; [|reflexivity].
      rewrite slice_0.
      assert (Hne : firstn e s <> []).
      { intros E. apply (f_equal len) in E. rewrite len_firstn in E by assumption.
        cbn in E. lia. }
      destruct (utf8.DecodeLastRuneInString (firstn e s)) as [r size] eqn:Ed.
      destruct (DecodeLast_spec _ Hne r size Ed) as [Hsz _].
      destruct (Bool.eqb (f r) truth); [reflexivity|].
      apply IH; lia.
Qed.

(** ** The text handed to [TrimSpace] *)

Lemma TrimSpace_stop_prefix (t : gostring) (stop : nat) :
  exists e, strings.TrimSpace_stop t stop = firstn e t.
Proof.
  induction stop as [|k IH]; cbn [strings.TrimSpace_stop].
  - exists O. apply slice_0.
  - rewrite slice_0. destruct (utf8.RuneSelf <=? at_ t k).
    + destruct (TrimRightFunc_spec (firstn (S k) t)) as (e & _ & -> & _).
      rewrite firstn_firstn. eexists; reflexivity.
    + destruct (strings.asciiSpace (at_ t k)); [exact IH|eexists; reflexivity].
Qed.

(** When an ASCII text with a byte other than white space comes first, the
    trimmed text begins with a byte of it. *)
Lemma TrimSpace_head (a b : gostring) (c : byte) (m : gostring) :
  isASCII a = true ->
  strings.TrimSpace (a ++ b) = c :: m ->
  existsb (fun x => negb (strings.asciiSpace (u8 x))) a = true ->
  In c a.
Proof.
  unfold strings.TrimSpace. induction a as [|x a IH]; intros Ha Ht Hex; [discriminate|].
  cbn [isASCII forallb] in Ha. apply andb_true_iff in Ha. destruct Ha as [Hx Ha].
  apply N.ltb_lt in Hx. cbn [app strings.TrimSpace_start] in Ht. unfold utf8.RuneSelf in Ht.
  destruct (N.leb_spec 0x80 (u8 x)); [lia|].
  cbn [existsb] in Hex. destruct (strings.asciiSpace (u8 x)) eqn:Esp.
  - right. apply IH; assumption.
  - left. destruct (TrimSpace_stop_prefix (x :: a ++ b) (len (x :: a ++ b))) as [e He].
    rewrite He in Ht. destruct e; [discriminate|]. cbn [firstn] in Ht. congruence.
Qed.

Lemma runes_ASCII_app (a b : gostring) :
  isASCII a = true -> utf8.runes (a ++ b) = map u8 a ++ utf8.runes b.
Proof.
  induction a as [|c a IH]; intros H; [reflexivity|].
  cbn [isASCII forallb] in H. apply andb_true_iff in H. destruct H as [Hc Ha].
  apply N.ltb_lt in Hc. cbn [app map]. rewrite runes_ASCII_cons by assumption.
  rewrite IH by assumption. reflexivity.
Qed.

Lemma nameRunes_content (s : gostring) :
  nameRunes s = filter (fun r => negb (r =? 0x2C)) (content s).
Proof.
  unfold nameRunes, content. induction (utf8.runes s) as [|r l IH]; [reflexivity|].
  cbn [filter]. destruct (unicode.IsSpace r); cbn [negb andb filter]; [exact IH|].
  destruct (r =? 0x2C); cbn [negb]; rewrite IH; reflexivity.
Qed.

Lemma suffixShape_ASCII (v : gostring) : suffixShape v = true -> isASCII v = true.
Proof.
  intros H. apply suffixShape_nameSuffix in H. destruct H as (b & Hv & _ & Hb).
  assert (Hba : isASCII b = true)
    by (apply (forallb_impl surnameClass); [apply class_ascii|assumption]).
  destruct Hv as [->| ->]; [assumption|]. cbn [isASCII forallb]. exact Hba.
Qed.

Lemma suffixShape_dropComma (v : gostring) :
  suffixShape v = true ->
  forallb surnameClass (dropComma v) = true /\ dropComma v <> []
  /\ (v = dropComma v \/ v = ","%char :: dropComma v).
Proof.
  intros H. apply suffixShape_nameSuffix in H. destruct H as (b & Hv & Hne & Hb).
  destruct Hv as [->| ->].
  - destruct b as [|c b]; [congruence|]. cbn [dropComma].
    assert (Hc : surnameClass c = true)
      by (cbn [forallb] in Hb; apply andb_true_iff in Hb; apply Hb).
    rewrite class_not_comma by assumption. auto.
  - cbn [dropComma]. rewrite Ascii.eqb_refl. auto.
Qed.

(** ** The package *)

Lemma MustCompile_surnamePattern :
  regexp.MustCompile surnamePattern = Some surnamePrecedes.
Proof. vm_compute. reflexivity. Qed.

Lemma Reorder_empty (tpe : gostring) : ReorderSDNName "" tpe = "".
Proof.
  rewrite Reorder_by_type. destruct (isIndividual tpe); reflexivity.
Qed.

(** ** Worked examples outside ASCII *)

(** The pattern knows the letters of ASCII only: in a name with a letter
    outside ASCII it detects what follows that letter. *)
Example Reorder_letter_outside_ASCII :
  regexp.FindString surnamePrecedes Mueller = "ller"
  /\ ReorderSDNName Mueller "individual" = "ller " ++ firstn 3 Mueller.
Proof. split; vm_compute; reflexivity. Qed.

(** [TrimSpace] removes white space outside ASCII as well: a no-break space
    before the comma does not reach the result. *)
Example Reorder_no_break_space :
  ReorderSDNName ("Doe" ++ nbsp ++ ", John") "individual" = "John Doe".
Proof. vm_compute. reflexivity. Qed.

(** The dotless and the dotted capital i of Turkish do not fold to [i], and
    the Kelvin sign folds to [k], a letter "individual" does not have. *)
Example EqualFold_outside_ASCII :
  strings.EqualFold ([ascii_of_N 0xC4; ascii_of_N 0xB1] ++ "ndividual") "individual" = false
  /\ strings.EqualFold ([ascii_of_N 0xC4; ascii_of_N 0xB0] ++ "ndividual") "individual" = false
  /\ strings.EqualFold ([ascii_of_N 0xE2; ascii_of_N 0x84; ascii_of_N 0xAA]) "k" = true.
Proof. repeat split. Qed.

(** ** The class, byte by byte *)

Lemma classByte_surnameClass (c : byte) : classByte c = surnameClass c.
Proof.
  rewrite surnameClass_unfold. unfold classByte, patternSpace.
  destruct (isLetter c), ((0x09 <=? u8 c) && (u8 c <=? 0x0A)),
    ((0x0C <=? u8 c) && (u8 c <=? 0x0D)), (u8 c =? 0x20), (u8 c =? 0x2E), (u8 c =? 0x3F);
    reflexivity.
Qed.

Lemma class_space (c : byte) :
  surnameClass c = true -> strings.asciiSpace (u8 c) = patternSpace c.
Proof.
  rewrite surnameClass_unfold. unfold isLetter, patternSpace, strings.asciiSpace.
  split_cmp; cbn [andb orb]; intros; try reflexivity; try discriminate; lia.
Qed.

Lemma patternSpace_class (c : byte) : patternSpace c = true -> surnameClass c = true.
Proof.
  intros H. rewrite <- classByte_surnameClass. unfold classByte. rewrite H.
  rewrite orb_true_r. reflexivity.
Qed.

Lemma endsInClass_snoc (m : gostring) (c : byte) :
  endsInClass (m ++ [c]) = surnameClass c.
Proof.
  unfold endsInClass. rewrite rev_app_distr. cbn [rev app]. apply classByte_surnameClass.
Qed.

(** The pattern matches somewhere exactly when the last byte of the text
    is of the class. *)
Lemma firstShape_endsInClass (name : gostring) :
  firstShape name <> None <-> endsInClass name = true.
Proof.
  split.
  - destruct (firstShape name) as [v|] eqn:E; [intros _|congruence].
    destruct (firstShape_some _ _ E) as [Hs [pre Hn]].
    apply suffixShape_nameSuffix in Hs.
    assert (Hh : hasNameSuffix surnameClass name) by (exists pre, v; split; assumption).
    apply hasNameSuffix_last in Hh. destruct Hh as (m & c & -> & Hc).
    rewrite endsInClass_snoc. exact Hc.
  - intros H E. destruct name as [|c0 n0] using rev_ind; [discriminate|]. clear IHn0.
    rewrite endsInClass_snoc in H.
    pose proof (firstShape_none _ E n0 [c0] eq_refl) as Hf.
    unfold suffixShape in Hf. cbn [classRun forallb] in Hf. rewrite H in Hf. discriminate.
Qed.

(** ** [TrimSpace] returns a part of its argument *)

Lemma TrimSpace_len (s : gostring) : (len (strings.TrimSpace s) <= len s)%nat.
Proof.
  unfold strings.TrimSpace. induction s as [|c s IH]; [cbn; lia|].
  cbn [strings.TrimSpace_start]. destruct (utf8.RuneSelf <=? u8 c).
  - unfold strings.TrimFunc.
    destruct (TrimRightFunc_spec (strings.TrimLeftFunc (c :: s) unicode.IsSpace))
      as (e & He & -> & _).
    rewrite len_firstn by assumption.
    assert (Hl : (len (strings.TrimLeftFunc (c :: s) unicode.IsSpace) <= len (c :: s))%nat).
    { unfold strings.TrimLeftFunc.
      destruct (strings.indexFunc (c :: s) unicode.IsSpace false) as [i|].
      - rewrite slice_to_len, len_skipn. lia.
      - cbn. lia. }
    lia.
  - destruct (strings.asciiSpace (u8 c)).
    + unfold len in *. cbn [List.length]. lia.
    + destruct (TrimSpace_stop_prefix (c :: s) (len (c :: s))) as [e ->].
      unfold len. rewrite length_firstn. lia.
Qed.

(** ** Trimming white space of the pattern *)

Lemma trimLeftASCII_spaces (ws t : gostring) :
  forallb patternSpace ws = true -> trimLeftASCII (ws ++ t) = trimLeftASCII t.
Proof.
  induction ws as [|c ws IH]; [reflexivity|]. cbn [forallb app trimLeftASCII].
  intros H. apply andb_true_iff in H. destruct H as [Hc Hw].
  rewrite (class_space c (patternSpace_class c Hc)), Hc. apply IH, Hw.
Qed.

Lemma trimRightASCII_spaces (t ws : gostring) :
  forallb patternSpace ws = true -> trimRightASCII (t ++ ws) = trimRightASCII t.
Proof.
  induction ws as [|c ws IH] using rev_ind; [rewrite app_nil_r; reflexivity|].
  rewrite forallb_app. cbn [forallb]. rewrite andb_true_r. intros H.
  apply andb_true_iff in H. destruct H as [Hw Hc].
  rewrite app_assoc, trimRightASCII_snoc.
  rewrite (class_space c (patternSpace_class c Hc)), Hc. apply IH, Hw.
Qed.

Lemma tidy_spec (s : gostring) :
  tidy s = true ->
  forallb surnameClass s = true
  /\ (exists c m, s = c :: m /\ strings.asciiSpace (u8 c) = false)
  /\ (exists m d, s = m ++ [d] /\ strings.asciiSpace (u8 d) = false).
Proof.
  unfold tidy. intros H. apply andb_true_iff in H. destruct H as [H Hl].
  apply andb_true_iff in H. destruct H as [Hr Hh].
  apply negb_true_iff in Hl, Hh. apply classRun_spec in Hr. destruct Hr as [Hne Hall].
  split; [assumption|]. split.
  - destruct s as [|c m]; [congruence|]. exists c, m. split; [reflexivity|exact Hh].
  - destruct (exists_last Hne) as (m & d & E). exists m, d. split; [assumption|].
    rewrite E, last_last in Hl. exact Hl.
Qed.

Lemma tidy_trim (s : gostring) :
  tidy s = true -> forall t, trimLeftASCII (s ++ t) = s ++ t.
Proof.
  intros H t. destruct (tidy_spec s H) as (_ & (c & m & -> & Hc) & _).
  cbn [app]. apply trimLeftASCII_id, Hc.
Qed.

Lemma tidy_trim_right (s : gostring) :
  tidy s = true -> forall t, trimRightASCII (t ++ s) = t ++ s.
Proof.
  intros H t. destruct (tidy_spec s H) as (_ & _ & (m & d & -> & Hd)).
  rewrite app_assoc. apply trimRightASCII_id, Hd.
Qed.

(** ** A comma before a run of the class *)

Lemma classRun_comma (a b : gostring) : classRun (a ++ ","%char :: b) = false.
Proof.
  destruct (classRun (a ++ ","%char :: b)) eqn:E; [|reflexivity].
  apply classRun_spec in E. destruct E as [_ E].
  rewrite forallb_app in E. apply andb_true_iff in E. destruct E as [_ E].
  cbn [forallb] in E. rewrite comma_not_class in E. discriminate.
Qed.

(** After bytes of the class, a comma followed by a run of the class is
    what the pattern detects. *)
Lemma firstShape_comma (pre b : gostring) :
  forallb surnameClass pre = true -> classRun b = true ->
  firstShape (pre ++ ","%char :: b) = Some (","%char :: b).
Proof.
  intros Hpre Hb. induction pre as [|c pre IH].
  - cbn [app firstShape]. unfold suffixShape. rewrite Ascii.eqb_refl, Hb.
    rewrite orb_true_r. reflexivity.
  - cbn [forallb] in Hpre. apply andb_true_iff in Hpre. destruct Hpre as [Hc Hpre].
    cbn [app firstShape]. unfold suffixShape.
    change (c :: pre ++ ","%char :: b) with ((c :: pre) ++ ","%char :: b).
    rewrite classRun_comma. cbn [app]. rewrite (class_not_comma c Hc). cbn [andb orb].
    apply IH, Hpre.
Qed.


(** ** Contents of ASCII text *)

Lemma content_ASCII_app (a b : gostring) :
  isASCII a = true -> content (a ++ b) = content a ++ content b.
Proof.
  intros H. unfold content. rewrite runes_ASCII_app by assumption.
  rewrite <- (app_nil_r a) at 2. rewrite runes_ASCII_app by assumption.
  rewrite runes_nil, app_nil_r. apply filter_app.
Qed.

Lemma content_comma (b : gostring) : content (","%char :: b) = 0x2C :: content b.
Proof.
  unfold content. rewrite runes_ASCII_cons by (vm_compute; reflexivity). reflexivity.
Qed.

Lemma content_space (b : gostring) : content (" " ++ b) = content b.
Proof.
  unfold content. cbn [str list_ascii_of_string app].
  rewrite runes_ASCII_cons by (vm_compute; reflexivity). reflexivity.
Qed.

(** A text of bytes of the class that [TrimSpace] would leave alone is
    returned as it is. *)
Lemma Reorder_class_output (r : gostring) :
  forallb surnameClass r = true ->
  startsWithSpace r = false -> endsWithSpace r = false ->
  ReorderSDNName r "individual" = r.
Proof.
  intros Hcls Hst Hen. destruct r as [|c m] eqn:Er; [reflexivity|]. rewrite <- Er in *.
  assert (Hne : r <> []) by (rewrite Er; discriminate).
  assert (Hascii : isASCII r = true)
    by (apply (forallb_impl surnameClass); [apply class_ascii|assumption]).
  assert (Hrun : classRun r = true) by (apply classRun_spec; split; assumption).
  assert (Hc : surnameClass c = true).
  { rewrite Er in Hcls. cbn [forallb] in Hcls. apply andb_true_iff in Hcls. apply Hcls. }
  rewrite Reorder_individual, (firstShape_classRun r Hrun).
  change r with ([] ++ r) at 2. rewrite TrimSuffix_app, app_nil_r.
  assert (Hdrop : dropComma r = r).
  { rewrite Er. cbn [dropComma]. rewrite (class_not_comma c Hc). reflexivity. }
  rewrite Hdrop. destruct (exists_last Hne) as (m' & d & Ed).
  assert (Hd : u8 d < 0x80).
  { rewrite Ed, isASCII_app in Hascii. apply andb_true_iff in Hascii.
    destruct Hascii as [_ Hd]. cbn [isASCII forallb] in Hd. rewrite andb_true_r in Hd.
    apply N.ltb_lt, Hd. }
  apply (TrimSpace_add_space r c d m Er).
  - exists m'; assumption.
  - unfold startsWithSpace in Hst. rewrite Er in Hst.
    pose proof (class_ascii c Hc) as Hlt. apply N.ltb_lt in Hlt.
    rewrite Decode_ascii in Hst by assumption. cbn [fst] in Hst.
    rewrite IsSpace_ASCII in Hst by assumption. exact Hst.
  - unfold endsWithSpace in Hen. rewrite Ed, DecodeLast_ASCII in Hen by assumption.
    cbn [fst] in Hen. rewrite IsSpace_ASCII in Hen by assumption. exact Hen.
  - assumption.
Qed.

Lemma toLowerASCII_ascii (c : byte) : u8 (toLowerASCII c) < 0x80 -> u8 c < 0x80.
Proof.
  rewrite u8_toLowerASCII.
  destruct (N.leb_spec 0x41 (u8 c)), (N.leb_spec (u8 c) 0x5A); cbn [andb]; lia.
Qed.


(** ** Every index is within bounds *)

Lemma at_ok (s : gostring) (i : nat) :
  (i < len s)%nat -> checked.at_ s i = Some (at_ s i).
Proof.
  intros H. unfold checked.at_, at_. rewrite (nth_error_nth' s zero) by exact H.
  reflexivity.
Qed.

Lemma slice_ok (s : gostring) (i j : nat) :
  (i <= j <= len s)%nat -> checked.slice s i j = Some (slice s i j).
Proof.
  intros [H1 H2]. unfold checked.slice. apply Nat.leb_le in H1, H2.
  rewrite H1, H2. reflexivity.
Qed.

Lemma sub_ok (a b : nat) : (b <= a)%nat -> checked.sub a b = Some (a - b)%nat.
Proof. intros H. unfold checked.sub. apply Nat.leb_le in H. rewrite H. reflexivity. Qed.

Lemma Decode_ok (s : gostring) :
  checked.DecodeRuneInString s = Some (utf8.DecodeRuneInString s).
Proof.
  destruct s as [|c0 [|c1 [|c2 [|c3 s]]]]; [reflexivity| | | |].
  all: unfold checked.DecodeRuneInString, utf8.DecodeRuneInString, checked.at_, at_, len;
       cbn [List.length nth nth_error option_map checked.bind Nat.ltb Nat.leb].
  all: repeat match goal with
              | |- context [u8 ?x] =>
                  is_var x; pose proof (u8_bound x); generalize dependent (u8 x); intros
              end.
  all: match goal with
       | |- context [utf8.first ?b0] => split_first b0
       end; try lia; first_codes; try reflexivity.
  all: cbn [Nat.ltb Nat.leb checked.bind]; try reflexivity.
  all: split_ifs; reflexivity.
Qed.

Lemma scanBack_ok (s : gostring) (lim p : nat) :
  (p <= len s)%nat -> checked.scanBack s lim p = Some (utf8.scanBack s lim p).
Proof.
  induction p as [|q IH]; intros H; [reflexivity|].
  cbn [checked.scanBack utf8.scanBack].
  destruct (lim <? S q)%nat; [|reflexivity].
  rewrite at_ok by lia. cbn [checked.bind].
  destruct (utf8.RuneStart (at_ s q)); [reflexivity|]. apply IH. lia.
Qed.

Lemma DecodeLast_ok (s : gostring) :
  checked.DecodeLastRuneInString s = Some (utf8.DecodeLastRuneInString s).
Proof.
  unfold checked.DecodeLastRuneInString, utf8.DecodeLastRuneInString.
  destruct (Nat.eqb_spec (len s) 0) as [|Hn]; [reflexivity|].
  rewrite sub_ok by lia. cbn [checked.bind].
  rewrite at_ok by lia. cbn [checked.bind].
  destruct (at_ s (len s - 1) <? utf8.RuneSelf); [reflexivity|].
  rewrite scanBack_ok by lia. cbn [checked.bind].
  pose proof (scanBack_le s (len s - utf8.UTFMax) (len s - 1)) as Hp.
  rewrite slice_ok by lia. cbn [checked.bind].
  rewrite Decode_ok. cbn [checked.bind].
  destruct (utf8.DecodeRuneInString _) as [r size].
  destruct (negb _); reflexivity.
Qed.

Lemma HasPrefix_ok (s prefix : gostring) :
  checked.HasPrefix s prefix = Some (strings.HasPrefix s prefix).
Proof.
  unfold checked.HasPrefix, strings.HasPrefix.
  destruct (Nat.leb_spec (len prefix) (len s)); [|reflexivity].
  rewrite slice_ok by lia. reflexivity.
Qed.

Lemma HasSuffix_ok (s suffix : gostring) :
  checked.HasSuffix s suffix = Some (strings.HasSuffix s suffix).
Proof.
  unfold checked.HasSuffix, strings.HasSuffix.
  destruct (Nat.leb_spec (len suffix) (len s)); [|reflexivity].
  rewrite sub_ok by lia. cbn [checked.bind]. rewrite slice_ok by lia. reflexivity.
Qed.

Lemma TrimPrefix_ok (s prefix : gostring) :
  checked.TrimPrefix s prefix = Some (strings.TrimPrefix s prefix).
Proof.
  unfold checked.TrimPrefix, strings.TrimPrefix. rewrite HasPrefix_ok.
  cbn [checked.bind]. unfold strings.HasPrefix.
  destruct (Nat.leb_spec (len prefix) (len s)); cbn [andb]; [|reflexivity].
  destruct (eqs _ _); [|reflexivity]. apply slice_ok. lia.
Qed.

Lemma TrimSuffix_ok (s suffix : gostring) :
  checked.TrimSuffix s suffix = Some (strings.TrimSuffix s suffix).
Proof.
  unfold checked.TrimSuffix, strings.TrimSuffix. rewrite HasSuffix_ok.
  cbn [checked.bind]. unfold strings.HasSuffix.
  destruct (Nat.leb_spec (len suffix) (len s)); cbn [andb]; [|reflexivity].
  destruct (eqs _ _); [|reflexivity].
  rewrite sub_ok by lia. cbn [checked.bind]. apply slice_ok. lia.
Qed.

Lemma indexFunc_loop_ok (f : rune -> bool) (truth : bool) (fuel i : nat) (s : gostring) :
  (len s <= fuel)%nat ->
  checked.indexFunc_loop fuel f truth i s = Some (strings.indexFunc_loop fuel f truth i s).
Proof.
  revert i s. induction fuel as [|n IH]; intros i s H.
  - destruct s; [reflexivity|]. unfold len in H. cbn [List.length] in H. lia.
  - destruct s as [|c s]; [reflexivity|].
    cbn [checked.indexFunc_loop strings.indexFunc_loop].
    rewrite Decode_ok. cbn [checked.bind].
    pose proof (Decode_width c s) as Hw.
    destruct (utf8.DecodeRuneInString (c :: s)) as [r size]. cbn [snd] in Hw.
    destruct (Bool.eqb (f r) truth); [reflexivity|].
    rewrite slice_ok by lia. cbn [checked.bind]. rewrite slice_to_len.
    apply IH. rewrite len_skipn. unfold len in *. cbn [List.length] in *. lia.
Qed.

Lemma indexFunc_loop_bound (f : rune -> bool) (truth : bool) (fuel i0 i : nat)
    (s : gostring) :
  strings.indexFunc_loop fuel f truth i0 s = Some i -> (i0 <= i < i0 + len s)%nat.
Proof.
  revert i0 s. induction fuel as [|n IH]; intros i0 s; [discriminate|].
  destruct s as [|c s]; [discriminate|].
  cbn [strings.indexFunc_loop].
  pose proof (Decode_width c s) as Hw.
  destruct (utf8.DecodeRuneInString (c :: s)) as [r size]. cbn [snd] in Hw.
  destruct (Bool.eqb (f r) truth).
  - intros E. injection E as <-. unfold len. cbn [List.length]. lia.
  - intros E. apply IH in E. rewrite len_skipn in E. lia.
Qed.

Lemma lastIndexFunc_loop_ok (f : rune -> bool) (truth : bool) (s : gostring)
    (fuel e : nat) :
  (e <= len s)%nat -> (e <= fuel)%nat ->
  checked.lastIndexFunc_loop fuel s f truth e
  = Some (strings.lastIndexFunc_loop fuel s f truth e).
Proof.
  revert e. induction fuel as [|n IH]; intros e He Hf.
  - assert (e = O) by lia. subst e. reflexivity.
  - cbn [checked.lastIndexFunc_loop strings.lastIndexFunc_loop].
    destruct (Nat.ltb_spec 0 e) as [Hpos|]; [|reflexivity].
    rewrite slice_ok by lia. cbn [checked.bind].
    rewrite DecodeLast_ok. cbn [checked.bind]. rewrite slice_0.
    assert (Hne : firstn e s <> []).
    { intros E. apply (f_equal len) in E. rewrite len_firstn in E by assumption.
      cbn in E. lia. }
    destruct (utf8.DecodeLastRuneInString (firstn e s)) as [r size] eqn:Ed.
    destruct (DecodeLast_spec _ Hne r size Ed) as [Hsz _].
    rewrite len_firstn in Hsz by assumption.
    rewrite sub_ok by lia. cbn [checked.bind].
    destruct (Bool.eqb (f r) truth); [reflexivity|].
    apply IH; lia.
Qed.

Lemma lastIndexFunc_loop_bound (f : rune -> bool) (truth : bool) (s : gostring)
    (fuel e i : nat) :
  (e <= len s)%nat ->
  strings.lastIndexFunc_loop fuel s f truth e = Some i -> (i < e)%nat.
Proof.
  revert e. induction fuel as [|n IH]; intros e He; [discriminate|].
  cbn [strings.lastIndexFunc_loop].
  destruct (Nat.ltb_spec 0 e) as [Hpos|]; [|discriminate].
  rewrite slice_0.
  assert (Hne : firstn e s <> []).
  { intros E. apply (f_equal len) in E. rewrite len_firstn in E by assumption.
    cbn in E. lia. }
  destruct (utf8.DecodeLastRuneInString (firstn e s)) as [r size] eqn:Ed.
  destruct (DecodeLast_spec _ Hne r size Ed) as [Hsz _].
  rewrite len_firstn in Hsz by assumption.
  destruct (Bool.eqb (f r) truth).
  - intros E. injection E as <-. lia.
  - intros E. apply IH in E; lia.
Qed.

Lemma TrimLeftFunc_ok (s : gostring) (f : rune -> bool) :
  checked.TrimLeftFunc s f = Some (strings.TrimLeftFunc s f).
Proof.
  unfold checked.TrimLeftFunc, strings.TrimLeftFunc, checked.indexFunc, strings.indexFunc.
  rewrite indexFunc_loop_ok by lia. cbn [checked.bind].
  destruct (strings.indexFunc_loop (len s) f false 0 s) as [i|] eqn:E; [|reflexivity].
  apply indexFunc_loop_bound in E. apply slice_ok. lia.
Qed.

Lemma TrimRightFunc_ok (s : gostring) (f : rune -> bool) :
  checked.TrimRightFunc s f = Some (strings.TrimRightFunc s f).
Proof.
  unfold checked.TrimRightFunc, strings.TrimRightFunc, checked.lastIndexFunc,
    strings.lastIndexFunc.
  rewrite lastIndexFunc_loop_ok by lia. cbn [checked.bind].
  destruct (strings.lastIndexFunc_loop (len s) s f false (len s)) as [i|] eqn:E.
  - apply lastIndexFunc_loop_bound in E; [|lia].
    rewrite at_ok by lia. cbn [checked.bind].
    destruct (utf8.RuneSelf <=? at_ s i); [|apply slice_ok; lia].
    rewrite slice_ok by lia. cbn [checked.bind]. rewrite Decode_ok. cbn [checked.bind].
    rewrite slice_to_len.
    assert (Hw : (snd (utf8.DecodeRuneInString (skipn i s)) <= len s - i)%nat).
    { rewrite <- (len_skipn i s). destruct (skipn i s) as [|c t] eqn:Esk.
      - apply (f_equal len) in Esk. rewrite len_skipn in Esk. cbn in Esk. lia.
      - apply Decode_width. }
    destruct (utf8.DecodeRuneInString (skipn i s)) as [r wid]. cbn [snd] in Hw.
    apply slice_ok. lia.
  - apply slice_ok. lia.
Qed.

Lemma TrimFunc_ok (s : gostring) (f : rune -> bool) :
  checked.TrimFunc s f = Some (strings.TrimFunc s f).
Proof.
  unfold checked.TrimFunc, strings.TrimFunc. rewrite TrimLeftFunc_ok. cbn [checked.bind].
  apply TrimRightFunc_ok.
Qed.

Lemma TrimSpace_stop_ok (s : gostring) (stop : nat) :
  (stop <= len s)%nat ->
  checked.TrimSpace_stop s stop = Some (strings.TrimSpace_stop s stop).
Proof.
  induction stop as [|k IH]; intros H.
  - apply slice_ok. lia.
  - cbn [checked.TrimSpace_stop strings.TrimSpace_stop].
    rewrite at_ok by lia. cbn [checked.bind].
    destruct (utf8.RuneSelf <=? at_ s k).
    + rewrite slice_ok by lia. cbn [checked.bind]. apply TrimRightFunc_ok.
    + destruct (strings.asciiSpace (at_ s k)); [apply IH; lia|apply slice_ok; lia].
Qed.

Lemma TrimSpace_ok (s : gostring) :
  checked.TrimSpace s = Some (strings.TrimSpace s).
Proof.
  unfold checked.TrimSpace, strings.TrimSpace.
  induction s as [|c s IH]; [reflexivity|].
  cbn [checked.TrimSpace_start strings.TrimSpace_start].
  destruct (utf8.RuneSelf <=? u8 c); [apply TrimFunc_ok|].
  destruct (strings.asciiSpace (u8 c)); [exact IH|].
  apply TrimSpace_stop_ok. lia.
Qed.

(** The case orbit of a rune closes after at most three steps. *)
Lemma SimpleFold_cycle (r : rune) :
  unicode.SimpleFold r = r
  \/ unicode.SimpleFold (unicode.SimpleFold r) = r
  \/ unicode.SimpleFold (unicode.SimpleFold (unicode.SimpleFold r)) = r.
Proof.
  destruct (N.eq_dec r 0x4B) as [->|]; [right; right; reflexivity|].
  destruct (N.eq_dec r 0x6B) as [->|]; [right; right; reflexivity|].
  destruct (N.eq_dec r 0x53) as [->|]; [right; right; reflexivity|].
  destruct (N.eq_dec r 0x73) as [->|]; [right; right; reflexivity|].
  destruct (N.eq_dec r 0x017F) as [->|]; [right; right; reflexivity|].
  destruct (N.eq_dec r 0x212A) as [->|]; [right; right; reflexivity|].
  destruct (N.le_gt_cases 0x41 r) as [H1|H1]; [destruct (N.le_gt_cases r 0x5A) as [H2|H2]|].
  - right; left.
    assert (E1 : unicode.SimpleFold r = r + 0x20).
    { unfold unicode.SimpleFold, unicode.asciiFold. split_cmp; cbn [andb]; lia. }
    rewrite E1. unfold unicode.SimpleFold, unicode.asciiFold.
    split_cmp; cbn [andb]; lia.
  - destruct (N.le_gt_cases 0x61 r) as [H3|H3]; [destruct (N.le_gt_cases r 0x7A) as [H4|H4]|].
    + right; left.
      assert (E1 : unicode.SimpleFold r = r - 0x20).
      { unfold unicode.SimpleFold, unicode.asciiFold. split_cmp; cbn [andb]; lia. }
      rewrite E1. unfold unicode.SimpleFold, unicode.asciiFold.
      split_cmp; cbn [andb]; lia.
    + left. unfold unicode.SimpleFold, unicode.asciiFold. split_cmp; cbn [andb]; lia.
    + left. unfold unicode.SimpleFold, unicode.asciiFold. split_cmp; cbn [andb]; lia.
  - left. unfold unicode.SimpleFold, unicode.asciiFold. split_cmp; cbn [andb]; lia.
Qed.

(** A walk that comes back to [sr] within the rounds it is given ends. *)
Lemma foldWalk_ok (fuel k : nat) (sr tr r : rune) :
  (k <= fuel)%nat -> Nat.iter k unicode.SimpleFold r = sr ->
  checked.foldWalk fuel sr tr r = Some (strings.foldWalk fuel sr tr r).
Proof.
  revert k r. induction fuel as [|n IH]; intros k r Hk Hit.
  - assert (k = O) by lia. subst k. cbn [Nat.iter nat_rect] in Hit. subst r.
    cbn [checked.foldWalk strings.foldWalk]. rewrite N.eqb_refl. reflexivity.
  - cbn [checked.foldWalk strings.foldWalk].
    destruct (N.eqb_spec r sr) as [E|E]; cbn [negb andb]; [reflexivity|].
    destruct (r <? tr); [|reflexivity].
    destruct k as [|k]; [cbn in Hit; congruence|].
    rewrite Nat.iter_succ_r in Hit. apply (IH k); [lia|assumption].
Qed.

Lemma foldStep_ok (sr tr : rune) :
  checked.foldStep sr tr = Some (strings.foldStep sr tr).
Proof.
  unfold checked.foldStep, strings.foldStep.
  destruct (tr =? sr); [reflexivity|].
  assert (H : forall a b,
            checked.bind (checked.foldWalk 4 a b (unicode.SimpleFold a))
              (fun r => Some (r =? b))
            = Some (strings.foldWalk 4 a b (unicode.SimpleFold a) =? b)).
  { intros a b.
    assert (Hw : checked.foldWalk 4 a b (unicode.SimpleFold a)
                 = Some (strings.foldWalk 4 a b (unicode.SimpleFold a))).
    { destruct (SimpleFold_cycle a) as [E|[E|E]].
      - apply (foldWalk_ok 4 0); [lia|exact E].
      - apply (foldWalk_ok 4 1); [lia|exact E].
      - apply (foldWalk_ok 4 2); [lia|exact E]. }
    rewrite Hw. reflexivity. }
  destruct (tr <? sr).
  - destruct (sr <? utf8.RuneSelf); [reflexivity|apply H].
  - destruct (tr <? utf8.RuneSelf); [reflexivity|apply H].
Qed.

Lemma EqualFold_unicode_ok (fuel : nat) (s t : gostring) :
  (len s <= fuel)%nat ->
  checked.EqualFold_unicode fuel s t = Some (strings.EqualFold_unicode fuel s t).
Proof.
  revert s t. induction fuel as [|n IH]; intros s t H.
  - destruct s; [reflexivity|]. unfold len in H. cbn [List.length] in H. lia.
  - destruct s as [|c s]; [reflexivity|].
    cbn [checked.EqualFold_unicode strings.EqualFold_unicode].
    rewrite Decode_ok. cbn [checked.bind].
    pose proof (Decode_width c s) as Hw.
    destruct (utf8.DecodeRuneInString (c :: s)) as [sr size]. cbn [snd] in Hw.
    destruct t as [|d t]; [reflexivity|].
    assert (Ht : (if u8 d <? utf8.RuneSelf then Some (u8 d, t)
                  else checked.bind (checked.DecodeRuneInString (d :: t))
                         (fun x => let '(r, size0) := x in
                            checked.bind (checked.slice (d :: t) size0 (len (d :: t)))
                              (fun t0 => Some (r, t0))))
                 = Some (if u8 d <? utf8.RuneSelf then (u8 d, t)
                         else let '(r, size0) := utf8.DecodeRuneInString (d :: t) in
                              (r, skipn size0 (d :: t)))).
    { destruct (u8 d <? utf8.RuneSelf); [reflexivity|].
      rewrite Decode_ok. cbn [checked.bind].
      pose proof (Decode_width d t) as Hw'.
      destruct (utf8.DecodeRuneInString (d :: t)) as [r size0]. cbn [snd] in Hw'.
      rewrite slice_ok by lia. cbn [checked.bind]. rewrite slice_to_len. reflexivity. }
    rewrite Ht. cbn [checked.bind].
    destruct (if u8 d <? utf8.RuneSelf then (u8 d, t)
              else let '(r, size0) := utf8.DecodeRuneInString (d :: t) in
                   (r, skipn size0 (d :: t))) as [tr t2].
    rewrite foldStep_ok. cbn [checked.bind].
    destruct (strings.foldStep sr tr); [|reflexivity].
    rewrite slice_ok by lia. cbn [checked.bind]. rewrite slice_to_len.
    apply IH. rewrite len_skipn. unfold len in *. cbn [List.length] in *. lia.
Qed.

Lemma EqualFold_ok (s t : gostring) :
  checked.EqualFold s t = Some (strings.EqualFold s t).
Proof.
  revert t. induction s as [|c s IH]; intros t; [destruct t; reflexivity|].
  destruct t as [|d t]; [reflexivity|].
  cbn [checked.EqualFold strings.EqualFold].
  destruct (utf8.RuneSelf <=? N.lor (u8 c) (u8 d)); [apply EqualFold_unicode_ok; lia|].
  destruct (u8 d =? u8 c); [apply IH|].
  destruct (u8 d <? u8 c).
  - destruct ((0x41 <=? u8 d) && (u8 d <=? 0x5A) && (u8 c =? u8 d + 0x61 - 0x41));
      [apply IH|reflexivity].
  - destruct ((0x41 <=? u8 c) && (u8 c <=? 0x5A) && (u8 d =? u8 c + 0x61 - 0x41));
      [apply IH|reflexivity].
Qed.

(** What is left after a match is a part of the text. *)
Lemma plus_len (step : gostring -> list gostring) :
  (forall s r, In r (step s) -> (len r <= len s)%nat) ->
  forall n s r, In r (regexp.plus step n s) -> (len r <= len s)%nat.
Proof.
  intros Hstep. induction n as [|n IH]; intros s r; cbn [regexp.plus]; [intros []|].
  rewrite in_flat_map. intros (s' & Hs' & Hr). apply Hstep in Hs'.
  apply in_app_or in Hr. destruct Hr as [Hr|[<-|[]]]; [|assumption].
  apply IH in Hr. lia.
Qed.

Lemma run_len (fuel : nat) (re : regexp.Regexp) :
  forall s r, In r (regexp.run fuel re s) -> (len r <= len s)%nat.
Proof.
  induction re as [c|ranges| |sub IH|sub IH|sub IH|sub1 IH1 sub2 IH2];
    intros s r; cbn [regexp.run].
  - destruct s as [|d s]; [intros []|]. destruct (Ascii.eqb c d); [|intros []].
    intros [<-|[]]. unfold len. cbn [List.length]. lia.
  - destruct s as [|d s]; [intros []|].
    destruct (regexp.inClass ranges (u8 d)); [|intros []].
    intros [<-|[]]. unfold len. cbn [List.length]. lia.
  - destruct s; [|intros []]. intros [<-|[]]. lia.
  - intros H. apply in_app_or in H. destruct H as [H|[<-|[]]]; [apply IH, H|lia].
  - apply plus_len. exact IH.
  - apply IH.
  - rewrite in_flat_map. intros (s' & H1 & H2). apply IH1 in H1. apply IH2 in H2. lia.
Qed.

Lemma find_ok (fuel : nat) (re : regexp.Regexp) (s : gostring) :
  checked.find fuel re s = Some (regexp.find fuel re s).
Proof.
  induction s as [|c s IH].
  - cbn [checked.find regexp.find].
    destruct (regexp.run fuel re []) as [|rest l] eqn:E; [reflexivity|].
    assert (H : (len rest <= len (@nil byte))%nat)
      by (apply (run_len fuel re); rewrite E; left; reflexivity).
    rewrite sub_ok by exact H. cbn [checked.bind]. rewrite slice_ok by lia. reflexivity.
  - cbn [checked.find regexp.find].
    destruct (regexp.run fuel re (c :: s)) as [|rest l] eqn:E; [exact IH|].
    assert (H : (len rest <= len (c :: s))%nat)
      by (apply (run_len fuel re); rewrite E; left; reflexivity).
    rewrite sub_ok by exact H. cbn [checked.bind]. rewrite slice_ok by lia. reflexivity.
Qed.

Lemma FindString_ok (re : regexp.Regexp) (s : gostring) :
  checked.FindString re s = Some (regexp.FindString re s).
Proof.
  unfold checked.FindString, regexp.FindString. rewrite find_ok. cbn [checked.bind].
  destruct (regexp.find (S (len s)) re s); reflexivity.
Qed.

(** No call of [ReorderSDNName] reads outside a string or runs out of
    rounds; the checked call returns what the definition returns. *)
Lemma ReorderSDNName_ok (name tpe : gostring) :
  checked.ReorderSDNName surnamePrecedes name tpe = Some (ReorderSDNName name tpe).
Proof.
  unfold checked.ReorderSDNName, ReorderSDNName.
  rewrite EqualFold_ok. cbn [checked.bind].
  destruct (negb (strings.EqualFold tpe "individual")); [reflexivity|].
  rewrite FindString_ok. cbn [checked.bind]. cbv zeta.
  destruct (eqs (regexp.FindString surnamePrecedes name) ""); [reflexivity|].
  rewrite TrimPrefix_ok. cbn [checked.bind].
  rewrite TrimSuffix_ok. cbn [checked.bind].
  apply TrimSpace_ok.
Qed.

Lemma init_surnamePrecedes : init = Some surnamePrecedes.
Proof. apply MustCompile_surnamePattern. Qed.

(** The checks are real: outside a string they fail. *)
Example checked_out_of_range :
  checked.at_ "abc" 3 = None
  /\ checked.slice "abc" 2 5 = None
  /\ checked.slice "abc" 2 1 = None
  /\ checked.sub 1 2 = None
  /\ checked.at_ "abc" 2 = Some 0x63
  /\ checked.slice "abc" 1 3 = Some (str "bc").
Proof. repeat split. Qed.


(** * The claims *)

(** C1. The literal cases of the specification: "MADURO MOROS, Nicolas" of an
    individual becomes "Nicolas MADURO MOROS"; "FELIX B. MADURO S.A." is left
    as it is under every type that is not "individual" up to case; "Doe" of
    an individual is left as it is. *)
Theorem C1_literal_cases (t : gostring) (Ht : isIndividual t = false) :
  ReorderSDNName "MADURO MOROS, Nicolas" "individual" = "Nicolas MADURO MOROS"
  /\ ReorderSDNName "FELIX B. MADURO S.A." t = "FELIX B. MADURO S.A."
  /\ ReorderSDNName "Doe" "individual" = "Doe".
Proof.
  split; [vm_compute; reflexivity|]. split; [|vm_compute; reflexivity].
  rewrite Reorder_by_type, Ht. reflexivity.
Qed.

Lemma C1_literal_cases_witness :
  isIndividual "Organization" = false
  /\ ReorderSDNName "MADURO MOROS, Nicolas" "individual" = "Nicolas MADURO MOROS"
  /\ ReorderSDNName "FELIX B. MADURO S.A." "Organization" = "FELIX B. MADURO S.A."
  /\ ReorderSDNName "Doe" "individual" = "Doe".
Proof.
  split; [reflexivity|]. apply (C1_literal_cases "Organization"). reflexivity.
Defined.

(** C2. Under a type that is not "individual" up to case, every name is
    returned unchanged. *)
Theorem C2_only_individuals (n t : gostring) :
  isIndividual t = false -> ReorderSDNName n t = n.
Proof.
  intros Ht. unfold ReorderSDNName.
  rewrite EqualFold_individual. fold (isIndividual t). rewrite Ht. reflexivity.
Qed.

Lemma C2_only_individuals_witness :
  isIndividual "vessel" = false
  /\ ReorderSDNName "MADURO MOROS, Nicolas" "vessel" = "MADURO MOROS, Nicolas".
Proof.
  split; [reflexivity|]. apply (C2_only_individuals "MADURO MOROS, Nicolas" "vessel").
  reflexivity.
Defined.

(** C5, as the code has it.  A name that is one token, a non-empty string of
    the ASCII letters a-z and A-Z, is returned unchanged for an individual.
    A token with a letter outside ASCII may be changed, as the lemma after
    the example shows. *)
Theorem C5_single_token (n : gostring) :
  n <> [] -> forallb isLetter n = true -> ReorderSDNName n "individual" = n.
Proof.
  intros Hn Hl.
  assert (Hcls : forallb surnameClass n = true)
    by (apply (forallb_impl isLetter); [apply isLetter_class|assumption]).
  assert (Hrun : classRun n = true) by (apply classRun_spec; split; assumption).
  rewrite Reorder_individual, (firstShape_classRun n Hrun).
  change n with ([] ++ n) at 2. rewrite TrimSuffix_app, app_nil_r.
  destruct n as [|c m] eqn:En; [congruence|]. rewrite <- En in *.
  destruct (exists_last Hn) as (m' & d & Ed).
  assert (Hc : isLetter c = true).
  { rewrite En in Hl. cbn [forallb] in Hl. apply andb_true_iff in Hl. apply Hl. }
  assert (Hd : isLetter d = true).
  { rewrite Ed, forallb_app in Hl. apply andb_true_iff in Hl. destruct Hl as [_ Hl].
    cbn [forallb] in Hl. rewrite andb_true_r in Hl. exact Hl. }
  assert (Hdrop : dropComma n = n).
  { rewrite En. cbn [dropComma]. rewrite isLetter_not_comma by assumption. reflexivity. }
  rewrite Hdrop.
  apply (TrimSpace_add_space n c d m En).
  - exists m'; assumption.
  - apply isLetter_not_space, Hc.
  - apply isLetter_not_space, Hd.
  - apply (forallb_impl surnameClass); [apply class_ascii|assumption].
Qed.

Lemma C5_single_token_witness : ReorderSDNName "Zawahiri" "individual" = "Zawahiri".
Proof.
  apply (C5_single_token "Zawahiri"); [discriminate|reflexivity].
Defined.

(** C5 as worded fails on a letter outside ASCII.  The German name Mueller,
    written with u-umlaut, is one token of six letters, without space, comma
    or period.  Its second letter, U+00FC, is two bytes in UTF-8, neither of
    them in the class of the pattern: the pattern detects "ller" only, and
    the name comes back as "ller" followed by a space and the first three
    bytes of the name. *)
Lemma C5_counterexample :
  utf8.runes Mueller = [0x4D; 0xFC; 0x6C; 0x6C; 0x65; 0x72]
  /\ forallb latin1Letter (utf8.runes Mueller) = true
  /\ forallb (fun c => negb (existsb (Ascii.eqb c) (str " ,."))) Mueller = true
  /\ regexp.FindString surnamePrecedes Mueller = "ller"
  /\ ReorderSDNName Mueller "individual" = str "ller " ++ firstn 3 Mueller
  /\ ReorderSDNName Mueller "individual" <> Mueller.
Proof.
  repeat split; try (vm_compute; reflexivity). vm_compute. discriminate.
Qed.

(** C8. The type is compared up to case.  The comparison of the code,
    [strings.EqualFold] with "individual", holds exactly for the spellings
    of "individual" that differ in the case of their letters.  Under each of
    them, such as "Individual" and "INDIVIDUAL", the reorder logic runs: the
    name is returned as it is when the pattern detects no suffix and
    rewritten otherwise, so all these spellings give the result of
    "individual"; "MADURO MOROS, Nicolas" is rewritten under each.  Under
    every other type the name is returned as it is. *)
Theorem C8_type_case_insensitive (n t : gostring) :
  strings.EqualFold t "individual" = isIndividual t
  /\ ReorderSDNName n t =
     (if isIndividual t then
        let v := regexp.FindString surnamePrecedes n in
        if eqs v "" then n
        else strings.TrimSpace
               (fmt.Sprintf "%s %s" [strings.TrimPrefix v ","; strings.TrimSuffix n v])
      else n)
  /\ ReorderSDNName n t = (if isIndividual t then ReorderSDNName n "individual" else n)
  /\ isIndividual "individual" = true
  /\ isIndividual "Individual" = true
  /\ isIndividual "INDIVIDUAL" = true
  /\ ReorderSDNName "MADURO MOROS, Nicolas" "Individual" = "Nicolas MADURO MOROS"
  /\ ReorderSDNName "MADURO MOROS, Nicolas" "INDIVIDUAL" = "Nicolas MADURO MOROS"
  /\ ReorderSDNName "MADURO MOROS, Nicolas" "iNDIVIDUAl" = "Nicolas MADURO MOROS"
  /\ ReorderSDNName "MADURO MOROS, Nicolas" "individuals" = "MADURO MOROS, Nicolas".
Proof.
  split; [apply EqualFold_individual|].
  split.
  { unfold ReorderSDNName. rewrite EqualFold_individual. fold (isIndividual t).
    destruct (isIndividual t); reflexivity. }
  split.
  { unfold ReorderSDNName at 1. rewrite EqualFold_individual. fold (isIndividual t).
    destruct (isIndividual t) eqn:Ht; cbn [negb]; [|reflexivity].
    unfold ReorderSDNName.
    change (strings.EqualFold "individual" "individual") with true. reflexivity. }
  repeat split; vm_compute; reflexivity.
Qed.

(** C3, as the code has it.  For an individual and a name without question
    marks: the name is rewritten exactly when it ends in an optional comma
    followed by one or more letters, periods and white space of the pattern
    (space, tab, line feed, form feed, carriage return).  The suffix [v] the
    pattern detects is such a text at the end of the name, and a name without
    such a suffix is returned unchanged. *)
Theorem C3_rewrite_iff_suffix (name : gostring)
    (Hq : forallb notQuestion name = true) :
  let v := regexp.FindString surnamePrecedes name in
  (hasNameSuffix nameChar name ->
     v <> [] /\ nameSuffix nameChar v /\
     exists pre, name = pre ++ v /\
       ReorderSDNName name "individual" = strings.TrimSpace (dropComma v ++ " " ++ pre))
  /\ (~ hasNameSuffix nameChar name ->
        v = [] /\ ReorderSDNName name "individual" = name).
Proof.
  cbv zeta. rewrite FindString_surnamePrecedes, Reorder_individual.
  assert (Hsome : forall v, firstShape name = Some v ->
            nameSuffix nameChar v /\ exists pre, name = pre ++ v).
  { intros v Hv. destruct (firstShape_some _ _ Hv) as [Hs [pre Hn]].
    split; [|exists pre; assumption].
    apply suffixShape_nameSuffix in Hs. revert Hs. apply nameSuffix_impl.
    intros c Hc Hcls. apply class_nameChar; [assumption|].
    rewrite forallb_forall in Hq. apply Hq. rewrite Hn. apply in_app_iff. right; assumption. }
  destruct (firstShape name) as [v|] eqn:E.
  - destruct (Hsome v eq_refl) as [Hsuf [pre Hn]]. split.
    + intros _. split.
      * destruct Hsuf as (b & [->| ->] & Hb & _); [assumption|discriminate].
      * split; [assumption|]. exists pre. split; [assumption|].
        rewrite Hn at 1. rewrite TrimSuffix_app. reflexivity.
    + intros H. exfalso. apply H. exists pre, v. split; assumption.
  - split.
    + intros (pre & v & Hn & Hv). exfalso.
      pose proof (firstShape_none _ E pre v Hn) as Hf.
      assert (Ht : suffixShape v = true).
      { apply suffixShape_nameSuffix. revert Hv. apply nameSuffix_impl.
        intros c _. apply nameChar_class. }
      congruence.
    + intros _. split; reflexivity.
Qed.

Lemma C3_rewrite_iff_suffix_witness :
  forallb notQuestion "AL ZAWAHIRI, Dr. Ayman" = true
  /\ hasNameSuffix nameChar "AL ZAWAHIRI, Dr. Ayman"
  /\ regexp.FindString surnamePrecedes "AL ZAWAHIRI, Dr. Ayman" <> []
  /\ nameSuffix nameChar (regexp.FindString surnamePrecedes "AL ZAWAHIRI, Dr. Ayman").
Proof.
  assert (Hs : hasNameSuffix nameChar "AL ZAWAHIRI, Dr. Ayman").
  { exists "AL ZAWAHIRI", ", Dr. Ayman". split; [reflexivity|].
    exists " Dr. Ayman". split; [right; reflexivity|]. split; [discriminate|reflexivity]. }
  split; [reflexivity|]. split; [exact Hs|].
  destruct (C3_rewrite_iff_suffix "AL ZAWAHIRI, Dr. Ayman" eq_refl) as [H _].
  destruct (H Hs) as (Hv & Hsuf & _). split; assumption.
Defined.

(** C3 as it is written fails: a name of an individual that ends in a tab,
    or in a question mark, ends in no letter, space or period, and still it
    is rewritten; the suffix detected in "Doe,<tab>John" holds a tab. *)
Lemma C3_counterexample :
  (~ hasNameSuffix lspChar ("Doe," ++ [tab])
   /\ regexp.FindString surnamePrecedes ("Doe," ++ [tab]) = "," ++ [tab]
   /\ ReorderSDNName ("Doe," ++ [tab]) "individual" = "Doe")
  /\ (~ hasNameSuffix lspChar "Doe, John?"
      /\ regexp.FindString surnamePrecedes "Doe, John?" = ", John?"
      /\ ReorderSDNName "Doe, John?" "individual" = "John? Doe")
  /\ (regexp.FindString surnamePrecedes ("Doe," ++ [tab] ++ "John") = "," ++ [tab] ++ "John"
      /\ ~ nameSuffix lspChar ("," ++ [tab] ++ "John")).
Proof.
  assert (Hlast : forall (m : gostring) (c : byte) (name : gostring),
             name = m ++ [c] -> lspChar c = false -> ~ hasNameSuffix lspChar name).
  { intros m c name Hn Hc H. apply hasNameSuffix_last in H.
    destruct H as (m' & c' & Hn' & Hc'). rewrite Hn in Hn'.
    apply app_inj_tail in Hn'. destruct Hn' as [_ <-]. congruence. }
  split; [|split].
  - split; [|split; vm_compute; reflexivity].
    apply (Hlast "Doe," tab); reflexivity.
  - split; [|split; vm_compute; reflexivity].
    apply (Hlast "Doe, John" "?"%char); reflexivity.
  - split; [vm_compute; reflexivity|].
    intros (b & Hv & _ & Ha).
    assert (Hb : b = [tab] ++ "John").
    { destruct Hv as [Hv|Hv]; [|injection Hv as <-; reflexivity].
      subst b. discriminate Ha. }
    subst b. discriminate Ha.
Qed.

(** C4, as the code has it.  [ReorderSDNName] applied twice gives what it
    gives applied once under every type that is not "individual", and for
    an individual whenever the name is written with characters the pattern
    accepts and at most one comma. *)
Theorem C4_idempotent_plain (n t : gostring) :
  isIndividual t = false \/ plainName n = true ->
  ReorderSDNName (ReorderSDNName n t) t = ReorderSDNName n t.
Proof.
  intros H. rewrite !(Reorder_by_type _ t).
  destruct (isIndividual t) eqn:Ht; [|reflexivity].
  destruct H as [H|Hp]; [discriminate|].
  rewrite (Reorder_individual n).
  destruct (firstShape n) as [v|] eqn:E.
  - destruct (firstShape_some _ _ E) as [_ [pre Hn]]. subst n.
    rewrite TrimSuffix_app. apply Reorder_trimmed_class.
    apply rewrite_plainName; assumption.
  - rewrite Reorder_individual, E. reflexivity.
Qed.

Lemma C4_idempotent_plain_witness :
  plainName "RIZO MORENO, Jorge Luis" = true
  /\ ReorderSDNName (ReorderSDNName "RIZO MORENO, Jorge Luis" "Individual") "Individual"
     = ReorderSDNName "RIZO MORENO, Jorge Luis" "Individual".
Proof.
  split; [reflexivity|].
  apply (C4_idempotent_plain "RIZO MORENO, Jorge Luis" "Individual").
  right. reflexivity.
Defined.

(** C4 as it is written fails.  On a name with two commas the first pass
    turns "A, B, C" into "C A, B" and the second into "B C A".  One comma is
    enough when the name holds a character outside the pattern:
    "AL-ZAWAHIRI ABU, Ayman" becomes "Ayman AL-ZAWAHIRI ABU" and then
    "ZAWAHIRI ABU Ayman AL-". *)
Lemma C4_counterexample :
  (ReorderSDNName "A, B, C" "individual" = "C A, B"
   /\ ReorderSDNName (ReorderSDNName "A, B, C" "individual") "individual" = "B C A"
   /\ ReorderSDNName (ReorderSDNName "A, B, C" "individual") "individual"
      <> ReorderSDNName "A, B, C" "individual")
  /\ (ReorderSDNName "AL-ZAWAHIRI ABU, Ayman" "individual" = "Ayman AL-ZAWAHIRI ABU"
      /\ ReorderSDNName (ReorderSDNName "AL-ZAWAHIRI ABU, Ayman" "individual") "individual"
         = "ZAWAHIRI ABU Ayman AL-").
Proof.
  split; [split; [vm_compute; reflexivity|split; [vm_compute; reflexivity|]]|].
  - vm_compute. discriminate.
  - split; vm_compute; reflexivity.
Qed.


(** C6, as the code has it.  When the pattern detects a suffix [v] in the
    name of an individual, the result is [TrimSpace] of: [v] without its
    leading comma, a space, and the name without [v].  The result neither
    begins nor ends with white space.  It does not begin with a comma when
    [v] holds, after its comma, a character other than white space. *)
Theorem C6_rewrite_shape (name : gostring) :
  let v := regexp.FindString surnamePrecedes name in
  v <> [] ->
  exists pre,
    name = pre ++ v
    /\ ReorderSDNName name "individual" = strings.TrimSpace (dropComma v ++ " " ++ pre)
    /\ startsWithSpace (ReorderSDNName name "individual") = false
    /\ endsWithSpace (ReorderSDNName name "individual") = false
    /\ (existsb (fun c => negb (strings.asciiSpace (u8 c))) (dropComma v) = true ->
        forall m, ReorderSDNName name "individual" <> ","%char :: m).
Proof.
  cbv zeta. rewrite FindString_surnamePrecedes, Reorder_individual.
  destruct (firstShape name) as [v|] eqn:E; [|congruence]. intros _.
  destruct (firstShape_some _ _ E) as [Hs [pre Hn]]. exists pre.
  split; [assumption|].
  assert (Ht : strings.TrimSuffix name v = pre) by (rewrite Hn; apply TrimSuffix_app).
  rewrite Ht.
  destruct (TrimSpace_props (dropComma v ++ " " ++ pre)) as (H1 & H2 & _).
  split; [reflexivity|]. split; [assumption|]. split; [assumption|].
  intros Hex m Hr.
  destruct (suffixShape_dropComma v Hs) as (Hcls & _ & _).
  assert (Hin : In ","%char (dropComma v)).
  { apply (TrimSpace_head (dropComma v) (" " ++ pre) ","%char m).
    - apply (forallb_impl surnameClass); [apply class_ascii|assumption].
    - exact Hr.
    - exact Hex. }
  rewrite forallb_forall in Hcls. specialize (Hcls _ Hin).
  rewrite comma_not_class in Hcls. discriminate.
Qed.

Lemma C6_rewrite_shape_witness :
  regexp.FindString surnamePrecedes "IBRAHIM, Sadr" <> []
  /\ exists pre,
       str "IBRAHIM, Sadr" = pre ++ regexp.FindString surnamePrecedes "IBRAHIM, Sadr"
       /\ startsWithSpace (ReorderSDNName "IBRAHIM, Sadr" "individual") = false
       /\ endsWithSpace (ReorderSDNName "IBRAHIM, Sadr" "individual") = false.
Proof.
  assert (Hv : regexp.FindString surnamePrecedes "IBRAHIM, Sadr" <> [])
    by (vm_compute; discriminate).
  split; [exact Hv|].
  destruct (C6_rewrite_shape "IBRAHIM, Sadr" Hv) as (pre & Hn & _ & H1 & H2 & _).
  exists pre. split; [exact Hn|]. split; assumption.
Defined.

(** C6 as it is written fails where it says that the result never begins
    with a comma: in ",, " the pattern detects ", ", and what is left after
    trimming is ",". *)
Lemma C6_counterexample :
  regexp.FindString surnamePrecedes ",, " = ", "
  /\ ReorderSDNName ",, " "individual" = ",".
Proof. split; vm_compute; reflexivity. Qed.

(** C9. [ReorderSDNName] is total and never fails.  The pattern compiles,
    so the initialisation of the package does not panic.  With every index,
    every slice and every difference of lengths checked, and every loop of
    the model stopped when its rounds are used up, a call returns a string
    for every name and every type: no index is out of range and no loop is
    cut short; the string is the one [ReorderSDNName] gives.  The rounds
    given to the search of the pattern are enough, more rounds give the same
    match.  The empty name is returned as it is under every type. *)
Theorem C9_total :
  init = Some surnamePrecedes
  /\ (forall name tpe,
        checked.ReorderSDNName surnamePrecedes name tpe = Some (ReorderSDNName name tpe))
  /\ (forall name fuel, (len name <= fuel)%nat ->
        regexp.find fuel surnamePrecedes name
        = regexp.find (S (len name)) surnamePrecedes name)
  /\ (forall tpe, checked.ReorderSDNName surnamePrecedes "" tpe = Some (str ""))
  /\ (forall tpe, ReorderSDNName "" tpe = "").
Proof.
  split; [apply init_surnamePrecedes|].
  split; [apply ReorderSDNName_ok|].
  split.
  { intros name fuel H. rewrite !find_surnamePrecedes by lia. reflexivity. }
  split; [|apply Reorder_empty].
  intros tpe. rewrite ReorderSDNName_ok, Reorder_empty. reflexivity.
Qed.

(** C10. The runes of the result other than white space and commas are the
    runes of the name other than white space and commas, each as often. *)
Theorem C10_content_preserved (name tpe : gostring) :
  Permutation (nameRunes (ReorderSDNName name tpe)) (nameRunes name).
Proof.
  rewrite Reorder_by_type. destruct (isIndividual tpe); [|apply Permutation_refl].
  rewrite Reorder_individual.
  destruct (firstShape name) as [v|] eqn:E; [|apply Permutation_refl].
  destruct (firstShape_some _ _ E) as [Hs [pre Hn]].
  rewrite Hn at 1. rewrite TrimSuffix_app.
  destruct (TrimSpace_props (dropComma v ++ " " ++ pre)) as (_ & _ & Hc).
  destruct (suffixShape_dropComma v Hs) as (Hcls & Hne & Hv).
  pose proof (suffixShape_ASCII v Hs) as Hva.
  assert (Hba : isASCII (dropComma v) = true)
    by (apply (forallb_impl surnameClass); [apply class_ascii|assumption]).
  set (b := dropComma v) in *.
  assert (Hbv : nameRunes v = nameRunes b).
  { destruct Hv as [Hv|Hv]; rewrite Hv; [reflexivity|].
    unfold nameRunes. rewrite runes_ASCII_cons by (vm_compute; reflexivity).
    reflexivity. }
  assert (Hout : nameRunes (strings.TrimSpace (b ++ " " ++ pre))
                 = nameRunes b ++ nameRunes pre).
  { rewrite nameRunes_content, Hc, <- nameRunes_content.
    unfold nameRunes. rewrite app_assoc, runes_ASCII_app
      by (rewrite isASCII_app, Hba; reflexivity).
    rewrite map_app, !filter_app. rewrite <- (app_nil_r b) at 2.
    rewrite runes_ASCII_app, app_nil_r by assumption. cbn. rewrite app_nil_r.
    reflexivity. }
  assert (Hin : nameRunes name = nameRunes pre ++ nameRunes v).
  { rewrite Hn. unfold nameRunes. rewrite runes_app; [apply filter_app|].
    destruct v as [|c v']; [reflexivity|]. apply boundary_ASCII.
    cbn [isASCII forallb] in Hva. apply andb_true_iff in Hva. apply N.ltb_lt, Hva. }
  rewrite Hout, Hin, Hbv. apply Permutation_app_comm.
Qed.

(** * Further properties of [ReorderSDNName] *)

(** X1. The pattern detects a suffix exactly when the last byte of the name
    is an ASCII letter, a period, a question mark, or a space, tab, line
    feed, form feed or carriage return.  A name that is empty or ends in any
    other byte (a digit, a hyphen, a comma, a byte of a character outside
    ASCII) is returned as it is, under every type. *)
Theorem X1_rewritten_iff_last_byte (name : gostring) :
  (regexp.FindString surnamePrecedes name <> [] <-> endsInClass name = true)
  /\ (endsInClass name = false -> forall tpe, ReorderSDNName name tpe = name).
Proof.
  pose proof (firstShape_endsInClass name) as Hiff.
  rewrite FindString_surnamePrecedes. split.
  - rewrite <- Hiff. destruct (firstShape name) as [v|] eqn:E.
    + destruct (firstShape_some _ _ E) as [Hs _]. apply suffixShape_nonempty in Hs.
      split; [discriminate|intros _; assumption].
    + split; intros H; exfalso; apply H; reflexivity.
  - intros H tpe. rewrite Reorder_by_type, Reorder_individual.
    destruct (firstShape name) as [v|] eqn:E.
    + assert (Ht : endsInClass name = true) by (apply Hiff; discriminate). congruence.
    + destruct (isIndividual tpe); reflexivity.
Qed.

(** X2. The suffix the pattern detects is the longest one: it reaches the
    end of the name, it is a non-empty run of bytes of the class with the
    comma in front of it when there is one, and when it has no comma the byte
    before it is neither of the class nor a comma. *)
Theorem X2_detected_suffix_longest (name v : gostring) :
  regexp.FindString surnamePrecedes name = v -> v <> [] ->
  exists pre,
    name = pre ++ v
    /\ dropComma v <> [] /\ forallb classByte (dropComma v) = true
    /\ (v = dropComma v \/ v = ","%char :: dropComma v)
    /\ (v = dropComma v ->
        forall p x, pre = p ++ [x] -> classByte x = false /\ x <> ","%char).
Proof.
  rewrite FindString_surnamePrecedes.
  destruct (firstShape name) as [w|] eqn:E; [|intros <-; congruence].
  intros <- _. destruct (firstShape_some _ _ E) as [Hs [pre Hn]].
  destruct (suffixShape_dropComma w Hs) as (Hcls & Hne & Hw).
  exists pre. split; [assumption|]. split; [assumption|]. split.
  { apply (forallb_impl surnameClass); [|assumption].
    intros c Hc. rewrite classByte_surnameClass. exact Hc. }
  split; [assumption|].
  intros Hv p x Hp. subst pre name. rewrite <- app_assoc in E. cbn [app] in E.
  pose proof (firstShape_longest _ _ E p (x :: w) eq_refl) as Hlong.
  assert (Hlen : (len w < len (x :: w))%nat) by (unfold len; cbn [List.length]; lia).
  specialize (Hlong Hlen). unfold suffixShape in Hlong.
  apply orb_false_iff in Hlong. destruct Hlong as [L1 L2].
  assert (Hrun : classRun w = true).
  { apply classRun_spec. rewrite Hv. split; assumption. }
  rewrite Hrun, andb_true_r in L2. split.
  - rewrite classByte_surnameClass. cbn [classRun forallb] in L1.
    apply classRun_spec in Hrun. destruct Hrun as [_ Hall]. rewrite Hall, andb_true_r in L1.
    exact L1.
  - intros ->. rewrite Ascii.eqb_refl in L2. discriminate.
Qed.

Lemma X2_detected_suffix_longest_witness :
  regexp.FindString surnamePrecedes "Kim 2 Jong Un" = " Jong Un"
  /\ exists pre,
       str "Kim 2 Jong Un" = pre ++ " Jong Un"
       /\ forall p x, pre = p ++ [x] -> classByte x = false /\ x <> ","%char.
Proof.
  assert (Hv : regexp.FindString surnamePrecedes "Kim 2 Jong Un" = " Jong Un")
    by (vm_compute; reflexivity).
  split; [exact Hv|].
  destruct (X2_detected_suffix_longest "Kim 2 Jong Un" " Jong Un" Hv)
    as (pre & Hn & _ & _ & _ & Hmax); [discriminate|].
  exists pre. split; [exact Hn|]. apply Hmax. reflexivity.
Defined.

(** X3. "Surname, Given" becomes "Given Surname": when the surname and the
    given names are non-empty texts of bytes of the class that neither begin
    nor end with white space, whatever white space of the pattern stands
    around the comma, an individual's name is returned as the given names, one
    space, and the surname. *)
Theorem X3_surname_comma_given (surname given ws1 ws2 : gostring) :
  tidy surname = true -> tidy given = true ->
  forallb patternSpace ws1 = true -> forallb patternSpace ws2 = true ->
  ReorderSDNName (surname ++ ws1 ++ "," ++ ws2 ++ given) "individual"
  = given ++ " " ++ surname.
Proof.
  intros Hs Hg H1 H2.
  destruct (tidy_spec surname Hs) as (Hsc & _ & _).
  destruct (tidy_spec given Hg) as (Hgc & (g0 & gm & Eg & _) & _).
  assert (Hw1 : forallb surnameClass ws1 = true)
    by (apply (forallb_impl patternSpace); [apply patternSpace_class|assumption]).
  assert (Hw2 : forallb surnameClass ws2 = true)
    by (apply (forallb_impl patternSpace); [apply patternSpace_class|assumption]).
  assert (Hname : surname ++ ws1 ++ "," ++ ws2 ++ given
                  = (surname ++ ws1) ++ ","%char :: (ws2 ++ given))
    by (rewrite <- app_assoc; reflexivity).
  assert (Hb : classRun (ws2 ++ given) = true).
  { apply classRun_spec. split.
    - rewrite Eg. intros E. apply app_eq_nil in E. destruct E as [_ E]; discriminate.
    - rewrite forallb_app, Hw2, Hgc. reflexivity. }
  rewrite Hname, Reorder_individual.
  rewrite firstShape_comma by (rewrite ?forallb_app, ?Hsc, ?Hw1; auto).
  rewrite TrimSuffix_app. cbn [dropComma]. rewrite Ascii.eqb_refl.
  assert (Hascii : isASCII ((ws2 ++ given) ++ " " ++ surname ++ ws1) = true).
  { apply (forallb_impl surnameClass); [apply class_ascii|].
    rewrite !forallb_app, Hw2, Hgc, Hsc, Hw1. reflexivity. }
  rewrite TrimSpace_ASCII by assumption.
  rewrite <- app_assoc, trimLeftASCII_spaces by assumption.
  rewrite tidy_trim by assumption.
  replace (given ++ " " ++ surname ++ ws1) with ((given ++ " " ++ surname) ++ ws1)
    by (rewrite <- !app_assoc; reflexivity).
  rewrite trimRightASCII_spaces by assumption.
  rewrite app_assoc. rewrite tidy_trim_right by assumption.
  rewrite <- app_assoc. reflexivity.
Qed.

Lemma X3_surname_comma_given_witness :
  ReorderSDNName (str "RIZO MORENO" ++ "" ++ "," ++ " " ++ "Jorge Luis") "individual"
  = str "Jorge Luis" ++ " " ++ "RIZO MORENO".
Proof.
  apply (X3_surname_comma_given "RIZO MORENO" "Jorge Luis" "" " "); reflexivity.
Defined.

(** X4. A name already in natural order is left alone: a non-empty text of
    bytes of the class, without a comma, that neither begins nor ends with
    white space is returned as it is. *)
Theorem X4_natural_order_kept (name tpe : gostring) :
  tidy name = true -> ReorderSDNName name tpe = name.
Proof.
  intros H. rewrite Reorder_by_type. destruct (isIndividual tpe); [|reflexivity].
  destruct (tidy_spec name H) as (Hcls & (c & m & Ec & Hc) & (m' & d & Ed & Hd)).
  assert (Hrun : classRun name = true).
  { apply classRun_spec. split; [rewrite Ec; discriminate|assumption]. }
  rewrite Reorder_individual, (firstShape_classRun name Hrun).
  change name with ([] ++ name) at 2. rewrite TrimSuffix_app, app_nil_r.
  assert (Hdrop : dropComma name = name).
  { rewrite Ec. cbn [dropComma].
    assert (Hcc : surnameClass c = true).
    { rewrite Ec in Hcls. cbn [forallb] in Hcls. apply andb_true_iff in Hcls. apply Hcls. }
    rewrite (class_not_comma c Hcc). reflexivity. }
  rewrite Hdrop. apply (TrimSpace_add_space name c d m Ec).
  - exists m'; assumption.
  - assumption.
  - assumption.
  - apply (forallb_impl surnameClass); [apply class_ascii|assumption].
Qed.

Lemma X4_natural_order_kept_witness :
  ReorderSDNName "Dr. Ayman AL ZAWAHIRI" "individual" = "Dr. Ayman AL ZAWAHIRI".
Proof.
  apply (X4_natural_order_kept "Dr. Ayman AL ZAWAHIRI" "individual"). reflexivity.
Defined.

(** X5. A name of an individual that is not empty and holds white space of
    the pattern only is returned as the empty string. *)
Theorem X5_blank_name (name : gostring) :
  name <> [] -> forallb patternSpace name = true ->
  ReorderSDNName name "individual" = "".
Proof.
  intros Hne Hsp.
  assert (Hcls : forallb surnameClass name = true)
    by (apply (forallb_impl patternSpace); [apply patternSpace_class|assumption]).
  assert (Hrun : classRun name = true) by (apply classRun_spec; split; assumption).
  rewrite Reorder_individual, (firstShape_classRun name Hrun).
  change name with ([] ++ name) at 2. rewrite TrimSuffix_app, app_nil_r.
  assert (Hdrop : dropComma name = name).
  { destruct name as [|c m]; [congruence|]. cbn [dropComma].
    cbn [forallb] in Hcls. apply andb_true_iff in Hcls. destruct Hcls as [Hc _].
    rewrite (class_not_comma c Hc). reflexivity. }
  rewrite Hdrop.
  assert (Hascii : isASCII (name ++ " ") = true).
  { apply (forallb_impl surnameClass); [apply class_ascii|].
    rewrite forallb_app, Hcls. reflexivity. }
  rewrite TrimSpace_ASCII by assumption.
  rewrite <- (app_nil_r (name ++ " ")).
  rewrite trimLeftASCII_spaces; [reflexivity|].
  rewrite forallb_app, Hsp. reflexivity.
Qed.

Lemma X5_blank_name_witness : ReorderSDNName (str "  " ++ [tab]) "individual" = "".
Proof.
  apply (X5_blank_name (str "  " ++ [tab])); [discriminate|reflexivity].
Defined.

(** X6. A rewrite is a rotation.  With [pre] the part of the name before the
    detected suffix [v]: the runes of the result that are not white space are
    those of [v] without its comma followed by those of [pre], each part in
    its own order; in the name they stand the other way round, with the comma
    of [v], if it has one, between them. *)
Theorem X6_rewrite_rotates (name : gostring) :
  let v := regexp.FindString surnamePrecedes name in
  v <> [] ->
  exists pre,
    name = pre ++ v
    /\ content (ReorderSDNName name "individual") = content (dropComma v) ++ content pre
    /\ content name = content pre ++ content v
    /\ (v = dropComma v \/ content v = 0x2C :: content (dropComma v)).
Proof.
  cbv zeta. rewrite FindString_surnamePrecedes, Reorder_individual.
  destruct (firstShape name) as [v|] eqn:E; [|congruence]. intros _.
  destruct (firstShape_some _ _ E) as [Hs [pre Hn]]. exists pre.
  split; [assumption|].
  destruct (suffixShape_dropComma v Hs) as (Hcls & Hne & Hv).
  pose proof (suffixShape_ASCII v Hs) as Hva.
  assert (Hba : isASCII (dropComma v) = true)
    by (apply (forallb_impl surnameClass); [apply class_ascii|assumption]).
  split; [|split].
  - rewrite Hn at 1. rewrite TrimSuffix_app.
    destruct (TrimSpace_props (dropComma v ++ " " ++ pre)) as (_ & _ & ->).
    rewrite content_ASCII_app by assumption. rewrite content_space. reflexivity.
  - rewrite Hn. apply content_app. destruct v as [|c v']; [reflexivity|].
    apply boundary_ASCII. cbn [isASCII forallb] in Hva. apply andb_true_iff in Hva.
    apply N.ltb_lt, Hva.
  - destruct Hv as [Hv|Hv]; [left; assumption|right].
    rewrite Hv at 1. apply content_comma.
Qed.

Lemma X6_rewrite_rotates_witness :
  regexp.FindString surnamePrecedes "MADURO MOROS, Nicolas" <> []
  /\ exists pre,
       str "MADURO MOROS, Nicolas"
       = pre ++ regexp.FindString surnamePrecedes "MADURO MOROS, Nicolas"
       /\ content (ReorderSDNName "MADURO MOROS, Nicolas" "individual")
          = content (dropComma (regexp.FindString surnamePrecedes "MADURO MOROS, Nicolas"))
            ++ content pre.
Proof.
  assert (Hv : regexp.FindString surnamePrecedes "MADURO MOROS, Nicolas" <> [])
    by (vm_compute; discriminate).
  split; [exact Hv|].
  destruct (X6_rewrite_rotates "MADURO MOROS, Nicolas" Hv) as (pre & Hn & Hc & _).
  exists pre. split; assumption.
Defined.

(** X7. The result is at most one byte longer than the name (the space put
    between the two parts), and not longer than the name when the detected
    suffix begins with a comma. *)
Theorem X7_length_bound (name tpe : gostring) :
  (len (ReorderSDNName name tpe) <= S (len name))%nat
  /\ (forall b, regexp.FindString surnamePrecedes name = ","%char :: b ->
        (len (ReorderSDNName name tpe) <= len name)%nat).
Proof.
  rewrite Reorder_by_type, FindString_surnamePrecedes, Reorder_individual.
  destruct (isIndividual tpe); [|split; intros; lia].
  destruct (firstShape name) as [v|] eqn:E; [|split; intros; lia].
  destruct (firstShape_some _ _ E) as [Hs [pre Hn]].
  assert (Ht : strings.TrimSuffix name v = pre) by (rewrite Hn; apply TrimSuffix_app).
  rewrite Ht.
  pose proof (TrimSpace_len (dropComma v ++ " " ++ pre)) as Hl.
  assert (Hlen : len (dropComma v ++ " " ++ pre) = (len (dropComma v) + 1 + len pre)%nat).
  { unfold len. rewrite !length_app. cbn. lia. }
  assert (Hname : len name = (len pre + len v)%nat).
  { rewrite Hn. unfold len. apply length_app. }
  split.
  - assert (len (dropComma v) <= len v)%nat.
    { destruct v as [|c b]; [cbn; lia|]. cbn [dropComma].
      destruct (Ascii.eqb c ","); unfold len; cbn [List.length]; lia. }
    lia.
  - intros b Hb. subst v. cbn [dropComma] in *. rewrite Ascii.eqb_refl in *.
    unfold len in *. cbn [List.length] in *. lia.
Qed.

(** X8. A second pass over the result of an individual's name changes
    nothing when that result ends in a byte outside the class or holds bytes
    of the class only. *)
Theorem X8_second_pass (name : gostring) :
  let r := ReorderSDNName name "individual" in
  endsInClass r = false \/ forallb classByte r = true ->
  ReorderSDNName r "individual" = r.
Proof.
  cbv zeta. intros [H|H].
  - rewrite (Reorder_individual (ReorderSDNName name "individual")).
    destruct (firstShape (ReorderSDNName name "individual")) as [v|] eqn:E; [|reflexivity].
    assert (Ht : endsInClass (ReorderSDNName name "individual") = true)
      by (apply firstShape_endsInClass; congruence).
    congruence.
  - assert (Hcls : forallb surnameClass (ReorderSDNName name "individual") = true).
    { apply (forallb_impl classByte); [|assumption].
      intros c Hc. rewrite <- classByte_surnameClass. exact Hc. }
    clear H. revert Hcls. rewrite (Reorder_individual name).
    destruct (firstShape name) as [v|] eqn:E.
    + intros Hcls.
      destruct (TrimSpace_props (dropComma v ++ " " ++ strings.TrimSuffix name v))
        as (Hst & Hen & _).
      apply Reorder_class_output; assumption.
    + intros Hcls. destruct name as [|c m]; [reflexivity|].
      assert (Hrun : classRun (c :: m) = true)
        by (apply classRun_spec; split; [discriminate|assumption]).
      rewrite (firstShape_classRun _ Hrun) in E. discriminate.
Qed.

Lemma X8_second_pass_witness :
  ReorderSDNName (ReorderSDNName "Maduro Moros 3, Nicolas" "individual") "individual"
  = ReorderSDNName "Maduro Moros 3, Nicolas" "individual".
Proof.
  apply (X8_second_pass "Maduro Moros 3, Nicolas"). left. vm_compute. reflexivity.
Defined.

(** X9. The type test accepts the ASCII spellings of "individual" and no
    other string: Go's Unicode case folding agrees here with folding the
    case of ASCII letters, so an accepted type has ten bytes, all ASCII. *)
Theorem X9_type_spellings (tpe : gostring) :
  (strings.EqualFold tpe "individual" = true <-> lowerASCII tpe = str "individual")
  /\ (strings.EqualFold tpe "individual" = true ->
      len tpe = 10%nat /\ isASCII tpe = true).
Proof.
  rewrite EqualFold_individual, eqs_eq. split; [reflexivity|].
  intros H. split.
  - apply (f_equal len) in H. unfold lowerASCII, len in H. rewrite length_map in H.
    exact H.
  - assert (Hl : isASCII (lowerASCII tpe) = true) by (rewrite H; reflexivity).
    unfold isASCII, lowerASCII in *. rewrite forallb_forall in *.
    intros c Hc. apply N.ltb_lt, toLowerASCII_ascii, N.ltb_lt.
    apply Hl, in_map, Hc.
Qed.
